(** * Verification of [scripts/update_cargo_toml.py]

    The script walks the directory [crates], parses every [Cargo.toml] it
    finds, replaces the dependencies on the crates that were merged into
    [paws_common] by one workspace dependency on [paws_common], and writes
    the manifest back when something changed.

    The development has three layers, like the script:
    - [update_deps], over Python values (a dict is a [gmap string pyval]),
      written in a state-and-exception monad whose state is the object the
      parameter [deps] refers to (the function mutates it in place);
    - [process_file], over a world made of the files on disk and the trace
      of what the process did (files opened, lines printed); the TOML
      library is a parameter of the section;
    - [main], over a directory tree enumerated as [os.walk] does. *)

From stdpp Require Import base option list gmap strings fin_maps.

Open Scope string_scope.

(** ** Python values *)

(** What [toml.load] can put in a document (bool, int, float, str,
    datetime, list, dict), and [None].  A float is its IEEE 754 binary64
    bit pattern, a datetime its ISO text. *)
#[warnings="-register-all"]
Inductive pyval : Type :=
  | PNone
  | PBool (b : bool)
  | PInt (n : Z)
  | PFloat (bits : Z)
  | PStr (s : string)
  | PDatetime (iso : string)
  | PList (l : list pyval)
  | PDict (d : gmap string pyval).

(** An exception object: its class and what [str(e)] gives. *)
Record exn : Type := Exn { exn_class : string; exn_str : string }.

Definition TypeError (msg : string) : exn := Exn "TypeError" msg.
Definition KeyError (key : string) : exn := Exn "KeyError" ("'" ++ key ++ "'").
Definition FileNotFoundError (path : string) : exn :=
  Exn "FileNotFoundError" ("[Errno 2] No such file or directory: '" ++ path ++ "'").
Definition PermissionError (path : string) : exn :=
  Exn "PermissionError" ("[Errno 13] Permission denied: '" ++ path ++ "'").

(** How a call ends: it returns a value or raises. *)
Inductive outcome (A : Type) : Type :=
  | Return (a : A)
  | Raise (e : exn).
Arguments Return {A} a.
Arguments Raise {A} e.

(** ** The state-and-exception monad *)

(** A computation over a mutable state [St]: the state it leaves is
    given also when it raises, since what was mutated before the
    exception stays mutated. *)
Definition Exec (St A : Type) : Type := St → outcome A * St.

Definition exec_ret {St A} (a : A) : Exec St A := λ s, (Return a, s).

Definition exec_bind {St A B} (f : A → Exec St B) (m : Exec St A) : Exec St B :=
  λ s, match m s with
       | (Return a, s') => f a s'
       | (Raise e, s') => (Raise e, s')
       end.

#[global] Instance Exec_ret {St} : MRet (Exec St) := @exec_ret St.
#[global] Instance Exec_bind {St} : MBind (Exec St) := @exec_bind St.

Definition get {St} : Exec St St := λ s, (Return s, s).
Definition put {St} (s : St) : Exec St unit := λ _, (Return (), s).
Definition raise {St A} (e : exn) : Exec St A := λ s, (Raise e, s).

(** [try: m except Exception as e: h e]. *)
Definition try_except {St A} (m : Exec St A) (h : exn → Exec St A) : Exec St A :=
  λ s, match m s with
       | (Return a, s') => (Return a, s')
       | (Raise e, s') => h e s'
       end.

(** [for x in l: acc = body x acc], with the loop's local variables in
    [acc]. *)
Fixpoint for_each {St A Acc} (l : list A) (acc : Acc)
    (body : A → Acc → Exec St Acc) : Exec St Acc :=
  match l with
  | [] => mret acc
  | x :: l' => acc' ← body x acc; for_each l' acc' body
  end.

(** ** The operations of Python that [update_deps] applies to [deps] *)

Definition type_name (v : pyval) : string :=
  match v with
  | PNone => "NoneType"
  | PBool _ => "bool"
  | PInt _ => "int"
  | PFloat _ => "float"
  | PStr _ => "str"
  | PDatetime _ => "datetime.datetime"
  | PList _ => "list"
  | PDict _ => "dict"
  end.

(** [bool(v)]: [None], [False], zero, and the empty string, list and dict
    are false.  A float is zero when all its bits but the sign are. *)
Definition truthy (v : pyval) : bool :=
  match v with
  | PNone => false
  | PBool b => b
  | PInt n => negb (n =? 0)%Z
  | PFloat bits => negb (Z.land bits (Z.ones 63) =? 0)%Z
  | PStr s => negb (String.eqb s "")
  | PDatetime _ => true
  | PList l => match l with [] => false | _ => true end
  | PDict d => negb (bool_decide (d = ∅))
  end.

(** [sub in s] on strings. *)
Fixpoint is_substring (sub s : string) : bool :=
  String.prefix sub s ||
  match s with
  | EmptyString => false
  | String _ s' => is_substring sub s'
  end.

(** [v == key] for a string [key]. *)
Definition eq_str (key : string) (v : pyval) : bool :=
  match v with
  | PStr s => String.eqb s key
  | _ => false
  end.

(** [key in deps]. *)
Definition py_contains (key : string) : Exec pyval bool :=
  deps ← get;
  match deps with
  | PDict d => mret (bool_decide (is_Some (d !! key)))
  | PStr s => mret (is_substring key s)
  | PList l => mret (existsb (eq_str key) l)
  | _ => raise (TypeError ("argument of type '" ++ type_name deps ++ "' is not iterable"))
  end.

(** [del deps[key]]. *)
Definition py_delitem (key : string) : Exec pyval unit :=
  deps ← get;
  match deps with
  | PDict d =>
      if bool_decide (is_Some (d !! key)) then put (PDict (delete key d))
      else raise (KeyError key)
  | PList _ => raise (TypeError "list indices must be integers or slices, not str")
  | _ => raise (TypeError ("'" ++ type_name deps ++ "' object doesn't support item deletion"))
  end.

(** [deps[key] = v]. *)
Definition py_setitem (key : string) (v : pyval) : Exec pyval unit :=
  deps ← get;
  match deps with
  | PDict d => put (PDict (<[key := v]> d))
  | PList _ => raise (TypeError "list indices must be integers or slices, not str")
  | _ => raise (TypeError ("'" ++ type_name deps ++ "' object does not support item assignment"))
  end.

(** ** [update_deps] *)

Definition MERGED_CRATES : list string :=
  [ "paws_spinner"; "paws_display"; "paws_select"; "paws_stream";
    "paws_walker"; "paws_tracker"; "paws_json_repair"; "paws_template";
    "paws_snaps"; "paws_test_kit"; "paws_fs" ].

(** The value stored under ["paws_common"]: [{"workspace": True}]. *)
Definition replacement : pyval := PDict {[ "workspace" := PBool true ]}.

(** The first loop; its local variables are [to_remove] and [modified]. *)
Definition collect (crate : string) (acc : list string * bool)
    : Exec pyval (list string * bool) :=
  found ← py_contains crate;
  if found : bool then mret ((acc.1 ++ [crate])%list, true) else mret acc.

Definition update_deps : Exec pyval bool :=
  deps ← get;
  if negb (truthy deps) then mret false
  else
    '(to_remove, modified) ← for_each MERGED_CRATES ([], false) collect;
    _ ← for_each to_remove () (λ crate _, py_delitem crate);
    _ ← (if modified : bool then py_setitem "paws_common" replacement else mret ());
    mret modified.

(** ** The world [process_file] runs in *)

(** A file on disk: whether this process may read and write it, and its
    text. *)
Record file : Type := File { readable : bool; writable : bool; content : string }.

(** What the process does that can be seen from outside, in the order it
    does it: a call of [open(path, mode)], made whether it succeeds or not,
    and a line that was printed. *)
Inductive event : Type :=
  | EvOpen (path mode : string)
  | EvPrint (line : string).

#[global] Instance event_eq_dec : EqDecision event.
Proof. solve_decision. Defined.

(** The directory [crates] as [os.scandir] shows it: whether the directory
    can be listed, its subdirectories and its other entries, each in the
    order [scandir] gives them. *)
#[warnings="-register-all"]
Inductive dirtree : Type :=
  | Dir (scan_ok : bool) (subdirs : list (string * dirtree)) (nondirs : list string).

(** [crates] is [None] when there is no directory of that name.  The text
    of the files is kept by path in [disk]; a name listed in the tree and
    absent from [disk] is a file that vanished after it was listed.  Each
    path is a file of its own: links, and two spellings of one path, are
    not in the model, and no statement below is about them.  [console]
    tells what writing a line to the standard output raises, if it raises:
    [BrokenPipeError] when the output was closed, [UnicodeEncodeError]
    when it cannot encode the line. *)
Record world : Type := World {
  crates : option dirtree;
  disk : gmap string file;
  console : string → option exn;
  trace : list event
}.

Definition log (ev : event) : Exec world unit :=
  λ w, (Return (), World (crates w) (disk w) (console w) (trace w ++ [ev])).

Definition set_file (path : string) (f : file) : Exec world unit :=
  λ w, (Return (), World (crates w) (<[path := f]> (disk w)) (console w) (trace w)).

(** [print(line)]: the line is written, and the event recorded, or the
    write raises. *)
Definition print (line : string) : Exec world unit :=
  w ← get;
  match console w line with
  | Some e => raise e
  | None => log (EvPrint line)
  end.

(** [open(path, 'r')] and reading the text. *)
Definition open_read (path : string) : Exec world string :=
  _ ← log (EvOpen path "r");
  w ← get;
  match disk w !! path with
  | None => raise (FileNotFoundError path)
  | Some f => if readable f then mret (content f) else raise (PermissionError path)
  end.

(** [open(path, 'w')]: the file is truncated as soon as it is opened, and
    created when it is not there. *)
Definition open_write (path : string) : Exec world unit :=
  _ ← log (EvOpen path "w");
  w ← get;
  match disk w !! path with
  | None => set_file path (File true true "")
  | Some f =>
      if writable f then set_file path (File (readable f) (writable f) "")
      else raise (PermissionError path)
  end.

(** [f.write(text)] on the file opened for writing. *)
Definition write_text (path text : string) : Exec world unit :=
  w ← get;
  match disk w !! path with
  | None => mret ()
  | Some f => set_file path (File (readable f) (writable f) text)
  end.

(** A pure call that may raise. *)
Definition call {St A} (r : outcome A) : Exec St A := λ s, (r, s).

(** Runs [m] on the object a local variable refers to and gives the value
    returned with the object as [m] left it. *)
Definition on_local {St L A} (m : Exec L A) (l : L) : Exec St (A * L) :=
  λ s, match m l with
       | (Return a, l') => (Return (a, l'), s)
       | (Raise e, _) => (Raise e, s)
       end.

(** Runs [m] on the object [data[key]]; the object is shared with [data],
    so what [m] does to it is seen in [data]. *)
Definition on_item {A} (key : string) (m : Exec pyval A) : Exec (gmap string pyval) A :=
  λ data, match data !! key with
          | None => (Raise (KeyError key), data)
          | Some v => let '(r, v') := m v in (r, <[key := v']> data)
          end.

(** [if key in data: if update_deps(data[key]): modified = True]. *)
Definition check_table (key : string) (modified : bool) : Exec (gmap string pyval) bool :=
  data ← get;
  if bool_decide (is_Some (data !! key)) then
    changed ← on_item key update_deps;
    if changed : bool then mret true else mret modified
  else mret modified.

(** Lines 35 to 43 of the script, on the document [data]. *)
Definition rewrite_tables : Exec (gmap string pyval) bool :=
  modified ← mret false;
  modified ← check_table "dependencies" modified;
  modified ← check_table "dev-dependencies" modified;
  mret modified.

(** [os.path.join(a, b)] on POSIX. *)
Definition ends_with_sep (a : string) : bool :=
  match String.length a with
  | 0 => false
  | S n => String.eqb (String.substring n 1 a) "/"
  end.

Definition path_join (a b : string) : string :=
  if String.prefix "/" b then b
  else if String.eqb a "" || ends_with_sep a then a ++ b
  else a ++ "/" ++ b.

(** [os.walk(top)] with its defaults (top down, [onerror=None], links not
    followed).  With no [onerror] the errors of [os.scandir] are ignored:
    a directory that cannot be listed is skipped and nothing is raised.
    A directory that can be listed is given with its subdirectories and
    its other entries, and then the subdirectories are walked in turn. *)
Fixpoint walk (top : string) (t : dirtree) : list (string * list string * list string) :=
  match t with
  | Dir scan_ok subdirs nondirs =>
      if scan_ok then
        (top, subdirs.*1, nondirs) ::
        (fix walk_all (l : list (string * dirtree)) :=
           match l with
           | [] => []
           | (name, sub) :: l' => (walk (path_join top name) sub ++ walk_all l')%list
           end) subdirs
      else []
  end.

(** [process_file] leaves the directories as they are, so what the
    generator gives does not depend on when it is resumed.  When [top] is
    no directory the first [scandir] fails, and the walk is empty. *)
Definition os_walk (top : string) : Exec world (list (string * list string * list string)) :=
  w ← get;
  match crates w with
  | None => mret []
  | Some t => mret (walk top t)
  end.

(** The TOML library, as an interface: [toml.load] on the text of a file
    gives a dict or raises, and so does [toml.dumps] on a dict. *)
Class Toml : Type := {
  toml_load : string → outcome (gmap string pyval);
  toml_dumps : gmap string pyval → outcome string
}.

Section Manifest.

Context {lib : Toml}.

(** [toml.dump(data, f)]: the text is made first, then written. *)
Definition toml_dump (data : gmap string pyval) (path : string) : Exec world unit :=
  text ← call (toml_dumps data);
  write_text path text.

(** The body of the [try]. *)
Definition process_file_body (path : string) : Exec world unit :=
  text ← open_read path;
  data ← call (toml_load text);
  '(modified, data) ← on_local rewrite_tables data;
  if modified : bool then
    _ ← print ("Updating " ++ path);
    _ ← open_write path;
    toml_dump data path
  else mret ().

Definition process_file (path : string) : Exec world unit :=
  try_except (process_file_body path)
    (λ e, print ("Error processing " ++ path ++ ": " ++ exn_str e)).

Definition main : Exec world unit :=
  entries ← os_walk "crates";
  for_each entries () (λ '(root, dirs, files) _,
    for_each files () (λ file _,
      if String.eqb file "Cargo.toml" then process_file (path_join root file)
      else mret ())).

End Manifest.

(** ** Vocabulary of the statements *)

(** The keys of [l] that [test] accepts, in the order of [l]: what the
    first loop of [update_deps] leaves in [to_remove]. *)
Definition selected (test : string → bool) (l : list string) : list string :=
  List.filter test l.

Definition nonempty {A} (l : list A) : bool :=
  match l with [] => false | _ => true end.

(** What the second loop leaves of a dict. *)
Definition remove_all (l : list string) (d : gmap string pyval) : gmap string pyval :=
  foldl (λ d' k, delete k d') d l.

Definition has_key (d : gmap string pyval) (k : string) : bool :=
  bool_decide (is_Some (d !! k)).

(** The legacy keys of a dict, in the order of [MERGED_CRATES]. *)
Definition legacy_keys (d : gmap string pyval) : list string :=
  selected (has_key d) MERGED_CRATES.

Definition is_dict (v : pyval) : bool :=
  match v with PDict _ => true | _ => false end.

(** Whether [data[key]] is a dict with a legacy key. *)
Definition has_legacy (data : gmap string pyval) (key : string) : bool :=
  match data !! key with
  | Some (PDict d) => nonempty (legacy_keys d)
  | _ => false
  end.

(** Whether [data[key]], when there is one, is a dict: what Cargo asks of
    [dependencies] and [dev-dependencies]. *)
Definition table_or_absent (data : gmap string pyval) (key : string) : bool :=
  match data !! key with
  | Some v => is_dict v
  | None => true
  end.

Definition add_events (w : world) (evs : list event) : world :=
  World (crates w) (disk w) (console w) (trace w ++ evs).

(** The standard output takes every line. *)
Definition console_ok (w : world) : Prop := ∀ line, console w line = None.

(** What the process did between two worlds. *)
Definition new_events (w w' : world) : list event :=
  drop (length (trace w)) (trace w').

Definition error_line (path : string) (e : exn) : string :=
  "Error processing " ++ path ++ ": " ++ exn_str e.

(** The manifests of one entry of the walk, in the order they are met. *)
Definition manifests_of (entry : string * list string * list string) : list string :=
  let '(root, _, files) := entry in
  path_join root <$> List.filter (λ file, String.eqb file "Cargo.toml") files.

(** The paths [main] gives to [process_file], in order. *)
Definition manifest_paths (w : world) : list string :=
  match crates w with
  | None => []
  | Some t => List.flat_map manifests_of (walk "crates" t)
  end.

Section Outcomes.

Context {lib : Toml}.

(** The reason the file at [path] cannot be loaded, if there is one. *)
Definition load_failure (path : string) (w : world) : option exn :=
  match disk w !! path with
  | None => Some (FileNotFoundError path)
  | Some f =>
      if readable f then
        match toml_load (content f) with
        | Raise e => Some e
        | Return _ => None
        end
      else Some (PermissionError path)
  end.

(** The file at [path] is [f], and loads as [data]. *)
Definition loads (path : string) (w : world) (f : file) (data : gmap string pyval) : Prop :=
  disk w !! path = Some f ∧ readable f = true ∧ toml_load (content f) = Return data.

(** The seven ways the body of the [try] goes: what it returns or raises,
    and the world it leaves. *)
Inductive body_outcome (path : string) (w : world) : outcome unit → world → Prop :=
  | LoadFailed e :
      load_failure path w = Some e →
      body_outcome path w (Raise e) (add_events w [EvOpen path "r"])
  | RewriteFailed f data e data' :
      loads path w f data →
      rewrite_tables data = (Raise e, data') →
      body_outcome path w (Raise e) (add_events w [EvOpen path "r"])
  | Unmodified f data data' :
      loads path w f data →
      rewrite_tables data = (Return false, data') →
      body_outcome path w (Return ()) (add_events w [EvOpen path "r"])
  | NoticeFailed f data data' e :
      loads path w f data →
      rewrite_tables data = (Return true, data') →
      console w ("Updating " ++ path) = Some e →
      body_outcome path w (Raise e) (add_events w [EvOpen path "r"])
  | WriteDenied f data data' :
      loads path w f data →
      rewrite_tables data = (Return true, data') →
      console w ("Updating " ++ path) = None →
      writable f = false →
      body_outcome path w (Raise (PermissionError path))
        (add_events w [EvOpen path "r"; EvPrint ("Updating " ++ path);
                       EvOpen path "w"])
  | DumpFailed f data data' e :
      loads path w f data →
      rewrite_tables data = (Return true, data') →
      console w ("Updating " ++ path) = None →
      writable f = true →
      toml_dumps data' = Raise e →
      body_outcome path w (Raise e)
        (World (crates w) (<[path := File true true ""]> (disk w)) (console w)
           (trace w ++ [EvOpen path "r"; EvPrint ("Updating " ++ path);
                        EvOpen path "w"]))
  | Written f data data' text' :
      loads path w f data →
      rewrite_tables data = (Return true, data') →
      console w ("Updating " ++ path) = None →
      writable f = true →
      toml_dumps data' = Return text' →
      body_outcome path w (Return ())
        (World (crates w) (<[path := File true true text']> (disk w)) (console w)
           (trace w ++ [EvOpen path "r"; EvPrint ("Updating " ++ path);
                        EvOpen path "w"])).

(** What the handler makes of the body: nothing when it returned, and
    when it raised the line of the error, whose [print] is not in any
    [try]. *)
Definition finish (path : string) (r : outcome unit) (w : world) : outcome unit * world :=
  match r with
  | Return a => (Return a, w)
  | Raise e =>
      match console w (error_line path e) with
      | None => (Return (), add_events w [EvPrint (error_line path e)])
      | Some e' => (Raise e', w)
      end
  end.

(** The files of [paths] processed in turn, up to the first call that
    raises. *)
Fixpoint process_all (paths : list string) : Exec world unit :=
  match paths with
  | [] => mret ()
  | path :: paths' => _ ← process_file path; process_all paths'
  end.

End Outcomes.

(** ** A small workspace, for the examples *)

Definition nl : string := String (Ascii.ascii_of_nat 10) EmptyString.

(** The texts of three manifests and what [toml.load] gives on them; any
    other text is taken as malformed. *)
Definition legacy_text : string := "dependencies = { paws_fs = '1.0', serde = '1.0' }".
Definition clean_text : string := "dependencies = { serde = '1.0' }".
Definition rewritten_text : string :=
  "dependencies = { serde = '1.0', paws_common = { workspace = true } }".
Definition target_line : string :=
  "target = { 'cfg(unix)' = { dependencies = { paws_fs = '1.0' } } }".
Definition target_text : string := legacy_text ++ nl ++ target_line.

Definition legacy_table : pyval :=
  PDict {[ "paws_fs" := PStr "1.0"; "serde" := PStr "1.0" ]}.
Definition legacy_doc : gmap string pyval := {[ "dependencies" := legacy_table ]}.
Definition clean_doc : gmap string pyval :=
  {[ "dependencies" := PDict {[ "serde" := PStr "1.0" ]} ]}.
Definition target_table : pyval :=
  PDict {[ "cfg(unix)" := PDict {[ "dependencies" := PDict {[ "paws_fs" := PStr "1.0" ]} ]} ]}.
Definition target_doc : gmap string pyval :=
  {[ "dependencies" := legacy_table; "target" := target_table ]}.

Definition demo_load (text : string) : outcome (gmap string pyval) :=
  if String.eqb text legacy_text then Return legacy_doc
  else if String.eqb text clean_text then Return clean_doc
  else if String.eqb text target_text then Return target_doc
  else Raise (Exn "TomlDecodeError" "Invalid TOML").

(** A stand-in for [toml.dumps], right on the documents of the examples:
    it shows [dependencies] with or without [paws_common], and [target]
    when there is one. *)
Definition demo_dumps (data : gmap string pyval) : outcome string :=
  match data !! "dependencies" with
  | Some (PDict d) =>
      let deps_line := if has_key d "paws_common" then rewritten_text else clean_text in
      match data !! "target" with
      | Some _ => Return (deps_line ++ nl ++ target_line)
      | None => Return deps_line
      end
  | _ => Raise (Exn "ValueError" "not a document of the examples")
  end.

Definition demo_toml : Toml :=
  {| toml_load := demo_load; toml_dumps := demo_dumps |}.

Definition demo_tree : dirtree :=
  Dir true
    [ ("app", Dir true [] ["Cargo.toml"; "README.md"]);
      ("broken", Dir true [] ["Cargo.toml"]);
      ("lib", Dir true [("src", Dir true [] ["lib.rs"])] ["Cargo.toml"]);
      ("locked", Dir false [] ["Cargo.toml"]) ]
    ["README.md"].

Definition demo_disk : gmap string file :=
  {[ "crates/app/Cargo.toml" := File true true legacy_text;
     "crates/broken/Cargo.toml" := File true true "dependencies = {";
     "crates/lib/Cargo.toml" := File true true clean_text ]}.

(** An output that takes every line, and one that was closed. *)
Definition working_console : string → option exn := λ _, None.

Definition demo_world : world := World (Some demo_tree) demo_disk working_console [].


(** A manifest with a table of dependencies for one target. *)
Definition target_world : world :=
  World (Some (Dir true [("app", Dir true [] ["Cargo.toml"])] []))
    {[ "crates/app/Cargo.toml" := File true true target_text ]} working_console [].

(** The manifest of [app], which this process may read and may not write. *)
Definition readonly_world : world :=
  World (Some (Dir true [("app", Dir true [] ["Cargo.toml"])] []))
    {[ "crates/app/Cargo.toml" := File true false legacy_text ]} working_console [].



(** ** Vocabulary and examples of the further properties *)

(** The values that are neither a dict, a list nor a string. *)
Definition is_scalar (v : pyval) : bool :=
  match v with
  | PNone | PBool _ | PInt _ | PFloat _ | PDatetime _ => true
  | _ => false
  end.

(** The entry of [data] under [key], if any, is one on which
    [update_deps] has nothing to do. *)
Definition settled (data : gmap string pyval) (key : string) : Prop :=
  match data !! key with
  | Some v => update_deps v = (Return false, v)
  | None => True
  end.

(** What an event is about: the file opened, or the file named at the
    head of the line printed. *)
Definition about (path : string) (ev : event) : Prop :=
  (∃ mode, ev = EvOpen path mode)
  ∨ ev = EvPrint ("Updating " ++ path)
  ∨ ∃ e, ev = EvPrint (error_line path e).

(** The names [os.scandir] gives have no separator in them; what is used
    of that is that the name of a subdirectory does not start with one. *)
Fixpoint well_named (t : dirtree) : bool :=
  match t with
  | Dir _ subdirs _ =>
      (fix all (l : list (string * dirtree)) : bool :=
         match l with
         | [] => true
         | (name, sub) :: l' =>
             negb (String.prefix "/" name) && well_named sub && all l'
         end) subdirs
  end.

Definition well_named_world (w : world) : bool :=
  match crates w with
  | Some t => well_named t
  | None => true
  end.

(** What [legacy_doc] becomes. *)
Definition rewritten_doc : gmap string pyval :=
  {[ "dependencies" := PDict {[ "serde" := PStr "1.0"; "paws_common" := replacement ]} ]}.

(** As [demo_toml], with the text [demo_dumps] gives for [rewritten_doc]
    read back as that document. *)
Definition roundtrip_toml : Toml :=
  {| toml_load := λ text,
       if String.eqb text rewritten_text then Return rewritten_doc
       else demo_load text;
     toml_dumps := demo_dumps |}.

(** A manifest in which [dev-dependencies] is a number. *)
Definition scalar_text : string := legacy_text ++ nl ++ "dev-dependencies = 5".
Definition scalar_doc : gmap string pyval :=
  {[ "dependencies" := legacy_table; "dev-dependencies" := PInt 5 ]}.

Definition scalar_toml : Toml :=
  {| toml_load := λ text,
       if String.eqb text scalar_text then Return scalar_doc else demo_load text;
     toml_dumps := demo_dumps |}.

Definition scalar_world : world :=
  World (Some (Dir true [("app", Dir true [] ["Cargo.toml"])] []))
    {[ "crates/app/Cargo.toml" := File true true scalar_text ]} working_console [].

(** A library whose [dumps] raises on every document. *)
Definition failing_dump_toml : Toml :=
  {| toml_load := demo_load;
     toml_dumps := λ _, Raise (Exn "ValueError" "Circular reference detected") |}.

(** * Properties *)

(** ** The monad *)

Lemma bind_unfold {St A B} (m : Exec St A) (f : A → Exec St B) (s : St) :
  (m ≫= f) s = match m s with
                | (Return a, s') => f a s'
                | (Raise e, s') => (Raise e, s')
                end.
Proof. reflexivity. Qed.

Lemma ret_unfold {St A} (a : A) (s : St) : (mret a : Exec St A) s = (Return a, s).
Proof. reflexivity. Qed.

Lemma for_each_cons {St A Acc} (x : A) (l : list A) (acc : Acc)
    (body : A → Acc → Exec St Acc) (s : St) :
  for_each (x :: l) acc body s
  = match body x acc s with
    | (Return acc', s') => for_each l acc' body s'
    | (Raise e, s') => (Raise e, s')
    end.
Proof. reflexivity. Qed.

(** ** The two loops of [update_deps] *)

Lemma selected_spec test l k : k ∈ selected test l ↔ k ∈ l ∧ test k = true.
Proof. unfold selected. rewrite !list_elem_of_In, filter_In. reflexivity. Qed.

Lemma NoDup_selected test l : NoDup l → NoDup (selected test l).
Proof. unfold selected. rewrite !NoDup_ListNoDup. apply List.NoDup_filter. Qed.

Lemma nonempty_true {A} (l : list A) : nonempty l = true ↔ ∃ x, x ∈ l.
Proof.
  destruct l as [|x l]; simpl; split; try discriminate.
  - intros [x Hx]. by apply elem_of_nil in Hx.
  - intros _. exists x. left.
  - reflexivity.
Qed.

(** The first loop, on an object whose membership test does not raise. *)
Lemma collect_loop (deps : pyval) (test : string → bool) :
  (∀ k, py_contains k deps = (Return (test k), deps)) →
  ∀ l to_remove modified,
    for_each l (to_remove, modified) collect deps
    = (Return ((to_remove ++ selected test l)%list,
               modified || nonempty (selected test l)), deps).
Proof.
  intros Htest l. induction l as [|k l IH]; intros tr m.
  - simpl. rewrite app_nil_r, orb_false_r. reflexivity.
  - rewrite for_each_cons. unfold collect at 1. rewrite bind_unfold, Htest.
    unfold selected. simpl List.filter.
    destruct (test k); rewrite ret_unfold, IH.
    + rewrite <- app_assoc, !orb_true_r. reflexivity.
    + reflexivity.
Qed.

Lemma lookup_remove_all (l : list string) (d : gmap string pyval) (k : string) :
  remove_all l d !! k = if decide (k ∈ l) then None else d !! k.
Proof.
  revert d. induction l as [|x l IH]; intros d.
  - rewrite decide_False by apply not_elem_of_nil. reflexivity.
  - change (remove_all (x :: l) d) with (remove_all l (delete x d)).
    rewrite IH. destruct (decide (k = x)) as [->|Hne].
    + rewrite lookup_delete_eq, (decide_True (P := x ∈ x :: l)) by left.
      destruct (decide (x ∈ l)); reflexivity.
    + rewrite lookup_delete_ne by congruence.
      destruct (decide (k ∈ l)) as [H1|H1].
      * rewrite decide_True by (by right). reflexivity.
      * rewrite decide_False; [reflexivity|].
        intros [?|?]%elem_of_cons; contradiction.
Qed.

(** The second loop on a dict: no key is deleted twice, and each is
    there when it is deleted, so [del] never raises [KeyError]. *)
Lemma delete_loop (l : list string) :
  ∀ d, NoDup l → (∀ k, k ∈ l → is_Some (d !! k)) →
    for_each l () (λ crate _, py_delitem crate) (PDict d)
    = (Return (), PDict (remove_all l d)).
Proof.
  induction l as [|k l IH]; intros d Hnd Hin; [reflexivity|].
  rewrite for_each_cons. unfold py_delitem at 1.
  rewrite bind_unfold. cbn [get].
  rewrite bool_decide_eq_true_2 by (apply Hin; left).
  cbn [put]. inversion_clear Hnd as [|?? Hk Hl].
  rewrite IH; [reflexivity | assumption |].
  intros k' Hk'. rewrite lookup_delete_ne; [apply Hin; by right|].
  intros ->. contradiction.
Qed.

(** On an object that is no dict it raises at its first round, before
    anything is changed. *)
Lemma delete_loop_not_dict (v : pyval) (k : string) (l : list string) :
  is_dict v = false →
  ∃ e, for_each (k :: l) () (λ crate _, py_delitem crate) v = (Raise e, v).
Proof.
  intros Hv. rewrite for_each_cons.
  destruct v; try discriminate; eexists; reflexivity.
Qed.

(** ** [update_deps] in closed form *)

Lemma NoDup_MERGED_CRATES : NoDup MERGED_CRATES.
Proof. apply (bool_decide_unpack _). vm_compute. exact I. Qed.

Lemma paws_common_not_merged : "paws_common" ∉ MERGED_CRATES.
Proof. apply (bool_decide_unpack _). vm_compute. exact I. Qed.

Lemma contains_dict (d : gmap string pyval) (k : string) :
  py_contains k (PDict d) = (Return (has_key d k), PDict d).
Proof. reflexivity. Qed.

Lemma legacy_keys_spec d k :
  k ∈ legacy_keys d ↔ k ∈ MERGED_CRATES ∧ is_Some (d !! k).
Proof.
  unfold legacy_keys. rewrite selected_spec. unfold has_key.
  rewrite bool_decide_eq_true. reflexivity.
Qed.

Lemma legacy_keys_none (d : gmap string pyval) :
  (∀ k, k ∈ MERGED_CRATES → d !! k = None) → legacy_keys d = [].
Proof.
  intros H. apply elem_of_nil_inv. intros k [Hk [v Hv]]%legacy_keys_spec.
  rewrite (H k Hk) in Hv. discriminate.
Qed.

Lemma update_deps_dict (d : gmap string pyval) :
  update_deps (PDict d)
  = if nonempty (legacy_keys d)
    then (Return true,
          PDict (<["paws_common" := replacement]> (remove_all (legacy_keys d) d)))
    else (Return false, PDict d).
Proof.
  unfold update_deps. rewrite bind_unfold. cbn [get truthy].
  destruct (decide (d = ∅)) as [->|Hne]; [reflexivity|].
  rewrite bool_decide_eq_false_2 by assumption. cbn [negb].
  rewrite bind_unfold, (collect_loop _ _ (contains_dict d)).
  cbn [app orb]. fold (legacy_keys d).
  rewrite bind_unfold, delete_loop.
  - destruct (legacy_keys d) eqn:E; reflexivity.
  - apply NoDup_selected, NoDup_MERGED_CRATES.
  - intros k [_ Hk]%legacy_keys_spec. exact Hk.
Qed.

(** What a call that found legacy keys leaves: none of them, the
    replacement, and every other entry as it was. *)
Lemma lookup_rewritten (d : gmap string pyval) (k : string) :
  <["paws_common" := replacement]> (remove_all (legacy_keys d) d) !! k
  = if decide (k = "paws_common") then Some replacement
    else if decide (k ∈ MERGED_CRATES) then None
    else d !! k.
Proof.
  destruct (decide (k = "paws_common")) as [->|Hne].
  - apply lookup_insert_eq.
  - rewrite lookup_insert_ne by congruence. rewrite lookup_remove_all.
    destruct (decide (k ∈ legacy_keys d)) as [[Hk _]%legacy_keys_spec|Hn].
    + by rewrite decide_True.
    + destruct (decide (k ∈ MERGED_CRATES)) as [Hk|]; [|reflexivity].
      destruct (d !! k) eqn:E; [|reflexivity].
      exfalso. apply Hn, legacy_keys_spec. split; [assumption|]. by rewrite E.
Qed.

(** On an object that is no dict, [update_deps] returns [False] or raises,
    and the object is as it was. *)
Lemma update_deps_not_dict (v : pyval) :
  is_dict v = false →
  update_deps v = (Return false, v) ∨ ∃ e, update_deps v = (Raise e, v).
Proof.
  intros Hv. unfold update_deps. rewrite bind_unfold. cbn [get].
  destruct (truthy v) eqn:Ht; [|by left]. cbn [negb].
  set (rest := λ '(to_remove, modified),
         _ ← for_each to_remove () (λ crate _, py_delitem crate);
         _ ← (if modified : bool
              then py_setitem "paws_common" replacement else mret ());
         mret modified).
  assert (∀ test : string → bool,
            (∀ k, py_contains k v = (Return (test k), v)) →
            (for_each MERGED_CRATES ([], false) collect ≫= rest) v
              = (Return false, v)
            ∨ ∃ e, (for_each MERGED_CRATES ([], false) collect ≫= rest) v
                   = (Raise e, v)) as Hloop.
  { intros test Htest. rewrite bind_unfold, (collect_loop _ _ Htest).
    cbn [app orb]. unfold rest.
    destruct (selected test MERGED_CRATES) as [|k l]; [by left|].
    right. destruct (delete_loop_not_dict v k l Hv) as [e He].
    exists e. rewrite bind_unfold, He. reflexivity. }
  destruct v; try discriminate; try (right; eexists; reflexivity).
  - apply (Hloop (λ k, is_substring k s)). reflexivity.
  - apply (Hloop (λ k, existsb (eq_str k) l)). reflexivity.
Qed.

(** [update_deps] returns [True] on dicts only, and then on one that had
    a legacy key. *)
Lemma update_deps_true (v v' : pyval) :
  update_deps v = (Return true, v') →
  ∃ d, v = PDict d ∧ nonempty (legacy_keys d) = true
     ∧ v' = PDict (<["paws_common" := replacement]> (remove_all (legacy_keys d) d)).
Proof.
  intros H. destruct (is_dict v) eqn:Hv.
  - destruct v; try discriminate. exists d.
    rewrite update_deps_dict in H.
    destruct (nonempty (legacy_keys d)); [|discriminate].
    injection H as <-. done.
  - destruct (update_deps_not_dict v Hv) as [H'|[e H']];
      rewrite H' in H; discriminate.
Qed.

(** In the list of the entries of a dict a key comes once. *)
Lemma count_key_once (l : list (string * pyval)) (k : string) (v : pyval) :
  NoDup (l.*1) → (k, v) ∈ l →
  length (filter (λ kv : string * pyval, kv.1 = k) l) = 1.
Proof.
  induction l as [|[k' v'] l IH]; intros Hnd Hin.
  - by apply elem_of_nil in Hin.
  - rewrite fmap_cons in Hnd. apply NoDup_cons in Hnd as [Hk' Hnd].
    apply elem_of_cons in Hin as [Heq|Hin].
    + injection Heq as <- <-. rewrite filter_cons_True by reflexivity.
      simpl. f_equal. apply length_zero_iff_nil.
      apply elem_of_nil_inv. intros [k2 v2] [Hk2 Hin2]%list_elem_of_filter.
      simpl in Hk2. subst k2. apply Hk'.
      apply list_elem_of_fmap. exists (k, v2). split; [reflexivity | assumption].
    + rewrite filter_cons_False; [by apply IH|].
      simpl. intros ->. apply Hk'.
      apply list_elem_of_fmap. exists (k, v). split; [reflexivity | assumption].
Qed.

Lemma dict_entry_once (d : gmap string pyval) (k : string) (v : pyval) :
  d !! k = Some v →
  length (filter (λ kv : string * pyval, kv.1 = k) (map_to_list d)) = 1.
Proof.
  intros H. apply (count_key_once _ k v).
  - apply NoDup_fst_map_to_list.
  - by apply elem_of_map_to_list.
Qed.

(** ** The scenarios of the specification *)

Example scenario_A :
  update_deps (PDict {[ "paws_fs" := PStr "1.0"; "serde" := PStr "1.0" ]})
  = (Return true, PDict {[ "serde" := PStr "1.0"; "paws_common" := replacement ]}).
Proof. vm_compute. reflexivity. Qed.

Example scenario_B :
  update_deps (PDict {[ "serde" := PStr "1.0" ]})
  = (Return false, PDict {[ "serde" := PStr "1.0" ]}).
Proof. vm_compute. reflexivity. Qed.

Example scenario_D :
  update_deps (PDict {[ "paws_fs" := PStr "1.0"; "paws_common" := PStr "0.1" ]})
  = (Return true, PDict {[ "paws_common" := replacement ]}).
Proof. vm_compute. reflexivity. Qed.

(** A value that is no table: the membership test on a string looks for a
    substring, and [del] raises. *)
Example string_in_place_of_table :
  update_deps (PStr "paws_fs")
  = (Raise (TypeError "'str' object doesn't support item deletion"), PStr "paws_fs").
Proof. vm_compute. reflexivity. Qed.

(** ** The claims on [update_deps] *)

(** C1. On a dependency table with at least one legacy key, [update_deps]
    returns [True] and leaves a table with no legacy key and with
    ["paws_common"] bound to [{"workspace": True}], whatever was bound to
    it before; the table has one entry of that name. *)
Theorem update_deps_rewrites_legacy (d : gmap string pyval) :
  (∃ k, k ∈ MERGED_CRATES ∧ is_Some (d !! k)) →
  ∃ d', update_deps (PDict d) = (Return true, PDict d')
      ∧ (∀ k, k ∈ MERGED_CRATES → d' !! k = None)
      ∧ d' !! "paws_common" = Some replacement
      ∧ length (filter (λ kv : string * pyval, kv.1 = "paws_common")
                       (map_to_list d')) = 1.
Proof.
  intros [k0 Hk0]. apply legacy_keys_spec in Hk0.
  rewrite update_deps_dict.
  assert (nonempty (legacy_keys d) = true) as ->
    by (apply nonempty_true; eauto).
  eexists. split; [reflexivity|].
  assert (<["paws_common":=replacement]> (remove_all (legacy_keys d) d)
            !! "paws_common" = Some replacement) as Hpc
    by apply lookup_insert_eq.
  split; [|split; [exact Hpc | by apply dict_entry_once with replacement]].
  intros k Hk. rewrite lookup_rewritten.
  rewrite decide_False by (intros ->; by apply paws_common_not_merged).
  by rewrite decide_True.
Qed.

Lemma update_deps_rewrites_legacy_witness :
  (∃ k, k ∈ MERGED_CRATES
      ∧ is_Some (({[ "paws_fs" := PStr "1.0"; "paws_common" := PStr "0.1" ]}
                    : gmap string pyval) !! k))
  ∧ ∃ d', update_deps (PDict {[ "paws_fs" := PStr "1.0"; "paws_common" := PStr "0.1" ]})
          = (Return true, PDict d')
        ∧ (∀ k, k ∈ MERGED_CRATES → d' !! k = None)
        ∧ d' !! "paws_common" = Some replacement
        ∧ length (filter (λ kv : string * pyval, kv.1 = "paws_common")
                         (map_to_list d')) = 1.
Proof.
  assert (∃ k, k ∈ MERGED_CRATES
      ∧ is_Some (({[ "paws_fs" := PStr "1.0"; "paws_common" := PStr "0.1" ]}
                    : gmap string pyval) !! k)) as H.
  { exists "paws_fs". split.
    - apply (bool_decide_unpack _). vm_compute. exact I.
    - exists (PStr "1.0"). vm_compute. reflexivity. }
  split; [exact H | exact (update_deps_rewrites_legacy _ H)].
Defined.

(** C2. On a dependency table with no legacy key, the empty table and
    [None] among them, [update_deps] returns [False] and leaves the table
    as it was. *)
Theorem update_deps_no_legacy :
  (∀ d : gmap string pyval,
     (∀ k, k ∈ MERGED_CRATES → d !! k = None) →
     update_deps (PDict d) = (Return false, PDict d))
  ∧ update_deps (PDict ∅) = (Return false, PDict ∅)
  ∧ update_deps PNone = (Return false, PNone).
Proof.
  split; [|split; reflexivity].
  intros d H. rewrite update_deps_dict, (legacy_keys_none d H). reflexivity.
Qed.

Lemma update_deps_no_legacy_witness :
  (∀ k, k ∈ MERGED_CRATES →
        ({[ "serde" := PStr "1.0" ]} : gmap string pyval) !! k = None)
  ∧ update_deps (PDict {[ "serde" := PStr "1.0" ]})
    = (Return false, PDict {[ "serde" := PStr "1.0" ]}).
Proof.
  assert (∀ k, k ∈ MERGED_CRATES →
        ({[ "serde" := PStr "1.0" ]} : gmap string pyval) !! k = None) as H.
  { intros k Hk. apply lookup_singleton_ne. intros <-. revert Hk.
    apply (bool_decide_unpack _). vm_compute. exact I. }
  split; [exact H | exact (proj1 update_deps_no_legacy _ H)].
Defined.

(** C3. [update_deps] is idempotent on dependency tables: the call
    returns, and a second call on the table it left returns [False] and
    leaves that table as it is. *)
Theorem update_deps_idempotent (d : gmap string pyval) :
  ∃ b d1, update_deps (PDict d) = (Return b, PDict d1)
        ∧ update_deps (PDict d1) = (Return false, PDict d1).
Proof.
  rewrite update_deps_dict. destruct (nonempty (legacy_keys d)) eqn:E.
  - do 2 eexists. split; [reflexivity|].
    rewrite update_deps_dict, legacy_keys_none; [reflexivity|].
    intros k Hk. rewrite lookup_rewritten.
    rewrite decide_False by (intros ->; by apply paws_common_not_merged).
    by rewrite decide_True.
  - do 2 eexists. split; [reflexivity|].
    rewrite update_deps_dict, E. reflexivity.
Qed.

(** C9. An entry whose key is neither a legacy key nor ["paws_common"]
    keeps its value through [update_deps], also when the table is
    modified (and an absent key stays absent). *)
Theorem update_deps_frame (d : gmap string pyval) (k : string) :
  k ∉ MERGED_CRATES → k ≠ "paws_common" →
  ∃ b d', update_deps (PDict d) = (Return b, PDict d') ∧ d' !! k = d !! k.
Proof.
  intros Hk Hne. rewrite update_deps_dict.
  destruct (nonempty (legacy_keys d)); do 2 eexists; (split; [reflexivity|]).
  - rewrite lookup_rewritten. by rewrite !decide_False.
  - reflexivity.
Qed.

Lemma update_deps_frame_witness :
  (("serde" ∉ MERGED_CRATES) ∧ "serde" ≠ "paws_common")
  ∧ ∃ b d', update_deps (PDict {[ "paws_fs" := PStr "1.0"; "serde" := PStr "1.0" ]})
            = (Return b, PDict d')
          ∧ d' !! "serde"
            = ({[ "paws_fs" := PStr "1.0"; "serde" := PStr "1.0" ]} : gmap string pyval)
                !! "serde".
Proof.
  assert ("serde" ∉ MERGED_CRATES) as H1
    by (apply (bool_decide_unpack _); vm_compute; exact I).
  assert ("serde" ≠ "paws_common") as H2 by discriminate.
  split; [by split | exact (update_deps_frame _ "serde" H1 H2)].
Defined.

(** C10. ["paws_common"] is not in [MERGED_CRATES], and whenever
    [update_deps] returns [True] the object it leaves is a dict with the
    replacement under ["paws_common"]: the second loop does not take away
    what the function adds. *)
Theorem paws_common_is_kept :
  ("paws_common" ∉ MERGED_CRATES)
  ∧ ∀ v v', update_deps v = (Return true, v') →
      ∃ d', v' = PDict d' ∧ d' !! "paws_common" = Some replacement.
Proof.
  split; [exact paws_common_not_merged|].
  intros v v' (d & _ & _ & ->)%update_deps_true.
  eexists. split; [reflexivity | apply lookup_insert_eq].
Qed.

Lemma paws_common_is_kept_witness :
  update_deps (PDict {[ "paws_fs" := PStr "1.0" ]})
  = (Return true, PDict {[ "paws_common" := replacement ]})
  ∧ ∃ d', PDict {[ "paws_common" := replacement ]} = PDict d'
        ∧ d' !! "paws_common" = Some replacement.
Proof.
  assert (update_deps (PDict {[ "paws_fs" := PStr "1.0" ]})
          = (Return true, PDict {[ "paws_common" := replacement ]})) as H
    by (vm_compute; reflexivity).
  split; [exact H | exact (proj2 paws_common_is_kept _ _ H)].
Defined.

(** ** The two tables of a document *)

Lemma check_table_unfold (key : string) (modified : bool) (data : gmap string pyval) :
  check_table key modified data
  = match data !! key with
    | None => (Return modified, data)
    | Some v =>
        match update_deps v with
        | (Return changed, v') => (Return (changed || modified), <[key := v']> data)
        | (Raise e, v') => (Raise e, <[key := v']> data)
        end
    end.
Proof.
  unfold check_table, on_item. rewrite bind_unfold. cbn [get].
  destruct (data !! key) as [v|] eqn:E.
  - rewrite bool_decide_eq_true_2 by eauto.
    rewrite bind_unfold, E. destruct (update_deps v) as [[[|]|e] v']; reflexivity.
  - rewrite bool_decide_eq_false_2; [reflexivity|]. by intros [? ?].
Qed.

(** [check_table] leaves the other keys of the document alone. *)
Lemma check_table_frame key modified data r data' k :
  check_table key modified data = (r, data') → k ≠ key → data' !! k = data !! k.
Proof.
  rewrite check_table_unfold. intros H Hk.
  destruct (data !! key) as [v|].
  - destruct (update_deps v) as [[changed|e] v']; injection H as <- <-;
      by rewrite lookup_insert_ne.
  - by injection H as <- <-.
Qed.

(** When it returns [True] though [modified] was [False], the table had a
    legacy key. *)
Lemma check_table_true key data data' :
  check_table key false data = (Return true, data') → has_legacy data key = true.
Proof.
  rewrite check_table_unfold. unfold has_legacy.
  destruct (data !! key) as [v|]; [|discriminate].
  destruct (update_deps v) as [[changed|e] v'] eqn:E; [|discriminate].
  intros H. injection H as H _. rewrite orb_false_r in H. subst changed.
  apply update_deps_true in E as (d & -> & Hd & _). exact Hd.
Qed.

Lemma check_table_ok key modified data :
  table_or_absent data key = true →
  ∃ data', check_table key modified data
           = (Return (has_legacy data key || modified), data').
Proof.
  unfold table_or_absent, has_legacy. rewrite check_table_unfold.
  destruct (data !! key) as [[]|]; try discriminate; intros _.
  - rewrite update_deps_dict. destruct (nonempty (legacy_keys d)); eauto.
  - eauto.
Qed.

Lemma rewrite_tables_unfold (data : gmap string pyval) :
  rewrite_tables data
  = match check_table "dependencies" false data with
    | (Return modified, data1) => check_table "dev-dependencies" modified data1
    | (Raise e, data1) => (Raise e, data1)
    end.
Proof.
  unfold rewrite_tables. rewrite bind_unfold, ret_unfold, bind_unfold.
  destruct (check_table "dependencies" false data) as [[m|e] data1]; [|reflexivity].
  rewrite bind_unfold.
  destruct (check_table "dev-dependencies" m data1) as [[m'|e] data2]; reflexivity.
Qed.

Lemma has_legacy_frame key modified data r data' k :
  check_table key modified data = (r, data') → k ≠ key →
  has_legacy data' k = has_legacy data k
  ∧ table_or_absent data' k = table_or_absent data k.
Proof.
  intros H Hk. unfold has_legacy, table_or_absent.
  by rewrite (check_table_frame _ _ _ _ _ k H Hk).
Qed.

(** [rewrite_tables] changes [dependencies] and [dev-dependencies] only. *)
Lemma rewrite_tables_frame data r data' k :
  rewrite_tables data = (r, data') →
  k ≠ "dependencies" → k ≠ "dev-dependencies" → data' !! k = data !! k.
Proof.
  rewrite rewrite_tables_unfold. intros H H1 H2.
  destruct (check_table "dependencies" false data) as [[m|e] data1] eqn:E1.
  - rewrite (check_table_frame _ _ _ _ _ k H H2).
    apply (check_table_frame _ _ _ _ _ k E1 H1).
  - injection H as <- <-. apply (check_table_frame _ _ _ _ _ k E1 H1).
Qed.

(** It returns [True] only when one of the two tables had a legacy key. *)
Lemma rewrite_tables_true data data' :
  rewrite_tables data = (Return true, data') →
  has_legacy data "dependencies" || has_legacy data "dev-dependencies" = true.
Proof.
  rewrite rewrite_tables_unfold.
  destruct (check_table "dependencies" false data) as [[[|]|e] data1] eqn:E1;
    [| |discriminate]; intros H.
  - by rewrite (check_table_true _ _ _ E1).
  - apply check_table_true in H.
    destruct (has_legacy_frame _ _ _ _ _ "dev-dependencies" E1) as [<- _];
      [discriminate|].
    rewrite H. apply orb_true_r.
Qed.

(** On a document whose two tables are tables it returns, and says
    whether one of them had a legacy key. *)
Lemma rewrite_tables_ok data :
  table_or_absent data "dependencies" = true →
  table_or_absent data "dev-dependencies" = true →
  ∃ data', rewrite_tables data
           = (Return (has_legacy data "dependencies"
                      || has_legacy data "dev-dependencies"), data').
Proof.
  intros H1 H2. rewrite rewrite_tables_unfold.
  destruct (check_table_ok "dependencies" false data H1) as [data1 E1].
  rewrite E1.
  destruct (has_legacy_frame _ _ _ _ _ "dev-dependencies" E1) as [Hl Ht];
    [discriminate|].
  rewrite <- Ht in H2.
  destruct (check_table_ok "dev-dependencies"
              (has_legacy data "dependencies" || false) data1 H2) as [data2 E2].
  exists data2. rewrite E2, Hl, orb_false_r, orb_comm. reflexivity.
Qed.

(** ** [process_file] *)

Lemma new_events_app (w : world) c d con (evs : list event) :
  new_events w (World c d con (trace w ++ evs)) = evs.
Proof. apply drop_app_length. Qed.

Lemma new_events_add (w : world) (evs : list event) :
  new_events w (add_events w evs) = evs.
Proof. apply drop_app_length. Qed.

Lemma add_events_add (w : world) (evs evs' : list event) :
  add_events (add_events w evs) evs' = add_events w (evs ++ evs').
Proof. unfold add_events. cbn. by rewrite <- app_assoc. Qed.

Lemma print_unfold (line : string) (w : world) :
  print line w
  = match console w line with
    | Some e => (Raise e, w)
    | None => (Return (), add_events w [EvPrint line])
    end.
Proof. unfold print. rewrite bind_unfold. cbn [get]. by destruct (console w line). Qed.

Ltac world_eq :=
  cbn [disk trace crates console readable writable];
  repeat match goal with H : _ = true |- _ => rewrite ?H; clear H end;
  rewrite <- ?app_assoc, ?insert_insert_eq; reflexivity.

Section FileProps.

Context {lib : Toml}.

(** The handler turns what the body raised into a line, and lets through
    what printing that line raises. *)
Lemma process_file_unfold (path : string) (w : world) :
  process_file path w
  = finish path (process_file_body path w).1 (process_file_body path w).2.
Proof.
  unfold process_file, try_except, finish.
  destruct (process_file_body path w) as [[[]|e] w1]; [reflexivity|].
  apply print_unfold.
Qed.

(** The body of the [try] goes one of the seven ways. *)
Lemma process_file_body_cases (path : string) (w : world) :
  ∃ r w1, process_file_body path w = (r, w1) ∧ body_outcome path w r w1.
Proof.
  unfold process_file_body.
  unfold open_read, open_write, toml_dump, write_text, print, log, set_file,
    call, on_local, get, raise.
  unfold mbind, Exec_bind, exec_bind, mret, Exec_ret, exec_ret.
  cbn [disk trace crates console].
  destruct (disk w !! path) as [f|] eqn:Hf.
  2:{ do 2 eexists. split; cycle 1.
      - apply (LoadFailed _ _ (FileNotFoundError path)).
        unfold load_failure. by rewrite Hf.
      - world_eq. }
  destruct (readable f) eqn:Hr.
  2:{ do 2 eexists. split; cycle 1.
      - apply (LoadFailed _ _ (PermissionError path)).
        unfold load_failure. by rewrite Hf, Hr.
      - world_eq. }
  destruct (toml_load (content f)) as [data|e] eqn:Hl.
  2:{ do 2 eexists. split; cycle 1.
      - apply (LoadFailed _ _ e).
        unfold load_failure. by rewrite Hf, Hr, Hl.
      - world_eq. }
  assert (loads path w f data) as Hloads by done.
  destruct (rewrite_tables data) as [[[|]|e] data'] eqn:Hrw.
  - cbn [disk trace crates console].
    destruct (console w ("Updating " ++ path)) as [e|] eqn:Hc.
    { do 2 eexists. split; cycle 1.
      - by eapply NoticeFailed.
      - world_eq. }
    cbn [disk trace crates console]. rewrite Hf.
    destruct (writable f) eqn:Hw.
    + cbn [disk trace crates console].
      destruct (toml_dumps data') as [text'|e] eqn:Hd.
      * cbn [disk trace crates console]. rewrite lookup_insert_eq.
        do 2 eexists. split; cycle 1.
        -- by eapply Written.
        -- world_eq.
      * do 2 eexists. split; cycle 1.
        -- by eapply DumpFailed.
        -- world_eq.
    + do 2 eexists. split; cycle 1.
      * by eapply WriteDenied.
      * world_eq.
  - do 2 eexists. split; cycle 1.
    + by eapply Unmodified.
    + world_eq.
  - do 2 eexists. split; cycle 1.
    + by eapply RewriteFailed.
    + world_eq.
Qed.

(** [process_file] is the body, then the handler. *)
Lemma process_file_run (path : string) (w : world) :
  ∃ r w1, body_outcome path w r w1 ∧ process_file path w = finish path r w1.
Proof.
  destruct (process_file_body_cases path w) as (r & w1 & Hb & Ho).
  exists r, w1. split; [exact Ho|]. by rewrite process_file_unfold, Hb.
Qed.

Lemma loads_no_failure path w f data :
  loads path w f data → load_failure path w = None.
Proof. intros (Hf & Hr & Hl). unfold load_failure. by rewrite Hf, Hr, Hl. Qed.

Lemma loads_inj path w f data f' data' :
  loads path w f data → loads path w f' data' → f' = f ∧ data' = data.
Proof.
  intros (Hf & Hr & Hl) (Hf' & Hr' & Hl').
  rewrite Hf in Hf'. injection Hf' as <-.
  rewrite Hl in Hl'. by injection Hl' as <-.
Qed.

(** The seven ways exclude one another. *)
Lemma body_outcome_functional (path : string) (w : world) r1 w1 r2 w2 :
  body_outcome path w r1 w1 → body_outcome path w r2 w2 → r1 = r2 ∧ w1 = w2.
Proof.
  intros H1 H2. destruct H1, H2;
    repeat match goal with
    | H : loads _ _ _ _, H' : load_failure _ _ = Some _ |- _ =>
        rewrite (loads_no_failure _ _ _ _ H) in H'; discriminate
    | H : loads ?p ?w ?f ?d, H' : loads ?p ?w ?f' ?d' |- _ =>
        destruct (loads_inj _ _ _ _ _ _ H H') as [-> ->]; clear H'
    end; split; congruence.
Qed.

Lemma process_file_is (path : string) (w : world) r w1 :
  body_outcome path w r w1 → process_file path w = finish path r w1.
Proof.
  intros H. destruct (process_file_run path w) as (r' & w1' & H' & ->).
  by destruct (body_outcome_functional _ _ _ _ _ _ H H') as [-> ->].
Qed.

(** The body leaves the output and the directories as they are. *)
Lemma body_outcome_frame (path : string) (w : world) r w1 :
  body_outcome path w r w1 → console w1 = console w ∧ crates w1 = crates w.
Proof. by destruct 1. Qed.

End FileProps.

(** Closes a goal whose hypothesis puts an event in a list it is not in. *)
Ltac not_in_events H :=
  repeat (apply elem_of_cons in H as [H|H]);
  try discriminate H; by apply elem_of_nil in H.

(** Puts the world a call left in the form [World _ _ _ (trace w ++ _)]. *)
Ltac norm_world :=
  unfold add_events; cbn [crates disk console trace];
  rewrite <- ?app_assoc; cbn [app].

(** The cases of a call of [process_file]: the seven of the body, and for
    those that raise whether the line of the error can be printed. *)
Ltac run_cases path w :=
  let Hrun := fresh "Hrun" in
  destruct (process_file_run path w)
    as (?r & ?w1 & [e0 Hfail | f0 data0 e0 data0' Hloads Hrw
                   | f0 data0 data0' Hloads Hrw
                   | f0 data0 data0' e0 Hloads Hrw Hnotice
                   | f0 data0 data0' Hloads Hrw Hnotice Hw
                   | f0 data0 data0' e0 Hloads Hrw Hnotice Hw Hd
                   | f0 data0 data0' text0 Hloads Hrw Hnotice Hw Hd] & Hrun);
  rewrite Hrun; clear Hrun; unfold finish; cbn [console add_events];
  try match goal with
      | |- context [console w (error_line path ?e)] =>
          destruct (console w (error_line path e)) as [e1|] eqn:Hreport
      end;
  cbn [fst snd]; norm_world; rewrite ?new_events_app.

Section FileClaims.

Context {lib : Toml}.

(** C8. When [process_file] writes a manifest back, the document it
    writes is the one it loaded with [rewrite_tables] applied, and that
    document has, under every key other than [dependencies] and
    [dev-dependencies], the value it had after parsing; the tables of a
    [target] key are among those. *)
Theorem process_file_rewrites_two_tables_only (path : string) (w : world) :
  EvOpen path "w" ∈ new_events w (process_file path w).2 →
  ∃ f data data',
    disk w !! path = Some f
    ∧ toml_load (content f) = Return data
    ∧ rewrite_tables data = (Return true, data')
    ∧ (∀ k, k ≠ "dependencies" → k ≠ "dev-dependencies" →
         data' !! k = data !! k)
    ∧ (∀ text', writable f = true → toml_dumps data' = Return text' →
         disk (process_file path w).2 !! path = Some (File true true text')).
Proof.
  run_cases path w; intros H; try (by not_in_events H);
    destruct Hloads as (Hf & Hr & Hl);
    exists f0, data0, data0'; (repeat split; try assumption);
    try (intros k H1 H2; by apply (rewrite_tables_frame _ _ _ k Hrw));
    intros t Hw' Hd'; try congruence.
  rewrite Hd in Hd'. injection Hd' as <-. apply lookup_insert_eq.
Qed.

(** What [finish] gives on each kind of result. *)
Lemma finish_return (path : string) (w : world) :
  finish path (Return ()) w = (Return (), w).
Proof. reflexivity. Qed.

Lemma finish_reported (path : string) (e : exn) (w : world) :
  console w (error_line path e) = None →
  finish path (Raise e) w = (Return (), add_events w [EvPrint (error_line path e)]).
Proof. intros H. unfold finish. by rewrite H. Qed.



(** C6, as the code has it.  The line [Updating <path>] is printed
    exactly when the manifest loads, the two calls of [update_deps] return
    and one returns [True], and the output takes the line; so, for a
    manifest whose two entries are tables and an output that takes the
    line, exactly when a table was modified; never for a manifest whose
    tables have no legacy key, and never when a call of [update_deps]
    raises, also when the other table was modified.  The line is printed
    before the file
    is opened for writing, and exactly when it is opened for writing.
    A file whose content on disk changed has the line; a file whose
    write-back fails has it too, followed by the line of the error. *)
Theorem updating_line_iff_tables_modified (path : string) (w : world) :
  (EvPrint ("Updating " ++ path) ∈ new_events w (process_file path w).2
     ↔ ∃ f data data',
         loads path w f data ∧ rewrite_tables data = (Return true, data')
         ∧ console w ("Updating " ++ path) = None)
  ∧ (∀ f data,
       loads path w f data →
       table_or_absent data "dependencies" = true →
       table_or_absent data "dev-dependencies" = true →
       console w ("Updating " ++ path) = None →
       (EvPrint ("Updating " ++ path) ∈ new_events w (process_file path w).2
          ↔ has_legacy data "dependencies"
            || has_legacy data "dev-dependencies" = true))
  ∧ (∀ f data,
       loads path w f data →
       has_legacy data "dependencies" || has_legacy data "dev-dependencies" = false →
       EvPrint ("Updating " ++ path) ∉ new_events w (process_file path w).2)
  ∧ (∀ f data data' e,
       loads path w f data → rewrite_tables data = (Raise e, data') →
       EvPrint ("Updating " ++ path) ∉ new_events w (process_file path w).2)
  ∧ (EvPrint ("Updating " ++ path) ∈ new_events w (process_file path w).2
       ↔ EvOpen path "w" ∈ new_events w (process_file path w).2)
  ∧ (EvPrint ("Updating " ++ path) ∈ new_events w (process_file path w).2 →
     ∃ l, new_events w (process_file path w).2
          = EvOpen path "r" :: EvPrint ("Updating " ++ path) :: EvOpen path "w" :: l)
  ∧ (disk (process_file path w).2 ≠ disk w →
     EvPrint ("Updating " ++ path) ∈ new_events w (process_file path w).2)
  ∧ (∀ f data data' e,
       loads path w f data → rewrite_tables data = (Return true, data') →
       console w ("Updating " ++ path) = None →
       (writable f = false ∧ e = PermissionError path)
       ∨ (writable f = true ∧ toml_dumps data' = Raise e) →
       console w (error_line path e) = None →
       new_events w (process_file path w).2
       = [ EvOpen path "r"; EvPrint ("Updating " ++ path); EvOpen path "w";
           EvPrint (error_line path e) ]).
Proof.
  assert (EvPrint ("Updating " ++ path) ∈ new_events w (process_file path w).2
     ↔ ∃ f data data',
         loads path w f data ∧ rewrite_tables data = (Return true, data')
         ∧ console w ("Updating " ++ path) = None) as Hiff.
  { split.
    - run_cases path w; intros H; try (by not_in_events H);
        by exists f0, data0, data0'.
    - intros (f & data & data' & Hlo & Hre & Hno).
      run_cases path w;
        try (rewrite (loads_no_failure _ _ _ _ Hlo) in Hfail; discriminate);
        destruct (loads_inj _ _ _ _ _ _ Hlo Hloads) as [-> ->];
        try congruence; right; left. }
  split; [exact Hiff|]. split; [|split; [|split; [|split; [|split; [|split]]]]].
  - intros f data Hlo Ht1 Ht2 Hno. rewrite Hiff.
    destruct (rewrite_tables_ok data Ht1 Ht2) as [data' Hre]. split.
    + intros (f' & d' & d'' & Hl' & Hre' & _).
      destruct (loads_inj _ _ _ _ _ _ Hlo Hl') as [-> ->].
      rewrite Hre in Hre'. by injection Hre' as ->.
    + intros Hmod. rewrite Hmod in Hre. by exists f, data, data'.
  - intros f data Hlo Hmod. rewrite Hiff.
    intros (f' & d' & d'' & Hl' & Hre' & _).
    destruct (loads_inj _ _ _ _ _ _ Hlo Hl') as [-> ->].
    apply rewrite_tables_true in Hre'. congruence.
  - intros f data data' e Hlo Hre. rewrite Hiff.
    intros (f' & d' & d'' & Hl' & Hre' & _).
    destruct (loads_inj _ _ _ _ _ _ Hlo Hl') as [-> ->]. congruence.
  - run_cases path w; split; intros H; try (by not_in_events H);
      try (right; left; fail); do 2 right; left.
  - run_cases path w; intros H; try (by not_in_events H); eexists; reflexivity.
  - run_cases path w; intros H; try (by destruct H); right; left.
  - intros f data data' e Hlo Hre Hno [[Hwr ->]|[Hwr Hdu]] Hrep.
    + rewrite (process_file_is path w _ _
                 (WriteDenied path w f data data' Hlo Hre Hno Hwr)).
      rewrite finish_reported by exact Hrep.
      cbn [snd]. norm_world. apply new_events_app.
    + rewrite (process_file_is path w _ _
                 (DumpFailed path w f data data' e Hlo Hre Hno Hwr Hdu)).
      rewrite finish_reported by exact Hrep.
      cbn [snd]. norm_world. apply new_events_app.
Qed.

End FileClaims.

Section MainClaims.

Context {lib : Toml}.

(** ** [main] *)

Lemma process_all_cons (path : string) (paths : list string) (w : world) :
  process_all (path :: paths) w
  = match process_file path w with
    | (Return _, w') => process_all paths w'
    | (Raise e, w') => (Raise e, w')
    end.
Proof. reflexivity. Qed.

Lemma process_all_app (l k : list string) (w : world) :
  process_all (l ++ k) w
  = match process_all l w with
    | (Return _, w') => process_all k w'
    | (Raise e, w') => (Raise e, w')
    end.
Proof.
  revert w. induction l as [|p l IH]; intros w; [reflexivity|].
  rewrite <- app_comm_cons, !process_all_cons.
  destruct (process_file p w) as [[[]|e] w']; [apply IH | reflexivity].
Qed.

Lemma files_loop (root : string) (files : list string) (w : world) :
  for_each files () (λ file _,
    if String.eqb file "Cargo.toml" then process_file (path_join root file)
    else mret ()) w
  = process_all (manifests_of (root, [], files)) w.
Proof.
  revert w. induction files as [|file files IH]; intros w; [reflexivity|].
  rewrite for_each_cons. unfold manifests_of in *. simpl List.filter.
  destruct (String.eqb file "Cargo.toml").
  - rewrite fmap_cons, process_all_cons.
    destruct (process_file (path_join root file) w) as [[[]|e] w'];
      [apply IH | reflexivity].
  - rewrite ret_unfold. apply IH.
Qed.

(** [main] gives the manifests of the walk to [process_file] in turn, and
    stops at the first call that raises. *)
Lemma main_unfold (w : world) :
  main w = process_all (manifest_paths w) w.
Proof.
  unfold main, os_walk, manifest_paths.
  rewrite bind_unfold, bind_unfold. cbn [get].
  assert (∀ entries w',
    for_each entries () (λ '(root, _, files) _,
      for_each files () (λ file _,
        if String.eqb file "Cargo.toml" then process_file (path_join root file)
        else mret ())) w'
    = process_all (List.flat_map manifests_of entries) w') as Hloop.
  { intros entries. induction entries as [|[[root dirs] files] entries IH];
      intros w'; [reflexivity|].
    rewrite for_each_cons, files_loop. cbn [List.flat_map].
    rewrite process_all_app.
    change (manifests_of (root, dirs, files)) with (manifests_of (root, [], files)).
    destruct (process_all (manifests_of (root, [], files)) w') as [[[]|e] w''];
      [apply IH | reflexivity]. }
  destruct (crates w); rewrite ret_unfold; apply Hloop.
Qed.

(** [process_file] opens its file first; whatever it does is about that
    file; and it leaves the output and the directories as they are. *)
Lemma process_file_trace (path : string) (w : world) :
  ∃ evs, trace (process_file path w).2 = (trace w ++ EvOpen path "r" :: evs)%list
       ∧ ∀ ev, ev ∈ evs → about path ev.
Proof.
  unfold about.
  run_cases path w; eexists; (split; [reflexivity|]); intros ev Hev;
    repeat (apply elem_of_cons in Hev as [->|Hev]); eauto;
    by apply elem_of_nil in Hev.
Qed.










End MainClaims.

Section RunClaims.

Context {lib : Toml}.



End RunClaims.

(** ** The script on the small workspace *)

(** Scenario C of the specification, with a malformed manifest between
    the two and a directory that cannot be listed: the first manifest is
    rewritten and reported, the malformed one is reported and the walk goes
    on, the last is only read. *)
Example scenario_C :
  main (lib := demo_toml) demo_world
  = (Return (),
     World (Some demo_tree)
       (<["crates/app/Cargo.toml" := File true true rewritten_text]> demo_disk)
       working_console
       [ EvOpen "crates/app/Cargo.toml" "r";
         EvPrint "Updating crates/app/Cargo.toml";
         EvOpen "crates/app/Cargo.toml" "w";
         EvOpen "crates/broken/Cargo.toml" "r";
         EvPrint "Error processing crates/broken/Cargo.toml: Invalid TOML";
         EvOpen "crates/lib/Cargo.toml" "r" ]).
Proof. vm_compute. reflexivity. Qed.





(** C6, as it is stated, fails on a manifest that may be read and not
    written: the line is printed, then opening the file for writing is
    refused, the error is reported, and the disk is as it was. *)
Lemma updating_line_without_write :
  process_file (lib := demo_toml) "crates/app/Cargo.toml" readonly_world
  = (Return (),
     World (crates readonly_world) (disk readonly_world) working_console
       [ EvOpen "crates/app/Cargo.toml" "r";
         EvPrint "Updating crates/app/Cargo.toml";
         EvOpen "crates/app/Cargo.toml" "w";
         EvPrint (error_line "crates/app/Cargo.toml"
                    (PermissionError "crates/app/Cargo.toml")) ])
  ∧ ¬ (EvPrint "Updating crates/app/Cargo.toml"
         ∈ new_events readonly_world
             (process_file (lib := demo_toml) "crates/app/Cargo.toml" readonly_world).2
       ↔ disk (process_file (lib := demo_toml) "crates/app/Cargo.toml" readonly_world).2
         ≠ disk readonly_world).
Proof.
  assert (process_file (lib := demo_toml) "crates/app/Cargo.toml" readonly_world
  = (Return (),
     World (crates readonly_world) (disk readonly_world) working_console
       [ EvOpen "crates/app/Cargo.toml" "r";
         EvPrint "Updating crates/app/Cargo.toml";
         EvOpen "crates/app/Cargo.toml" "w";
         EvPrint (error_line "crates/app/Cargo.toml"
                    (PermissionError "crates/app/Cargo.toml")) ])) as Hrun
    by (vm_compute; reflexivity).
  split; [exact Hrun|]. rewrite Hrun. cbn [snd disk].
  intros [Hdisk _]. apply Hdisk; [|reflexivity].
  right. left.
Qed.

Lemma updating_line_iff_tables_modified_witness :
  (loads (lib := demo_toml) "crates/app/Cargo.toml" readonly_world
     (File true false legacy_text) legacy_doc
   ∧ has_legacy legacy_doc "dependencies"
     || has_legacy legacy_doc "dev-dependencies" = true)
  ∧ EvPrint ("Updating " ++ "crates/app/Cargo.toml")
      ∈ new_events readonly_world
          (process_file (lib := demo_toml) "crates/app/Cargo.toml" readonly_world).2
  ∧ new_events readonly_world
      (process_file (lib := demo_toml) "crates/app/Cargo.toml" readonly_world).2
    = [ EvOpen "crates/app/Cargo.toml" "r";
        EvPrint ("Updating " ++ "crates/app/Cargo.toml");
        EvOpen "crates/app/Cargo.toml" "w";
        EvPrint (error_line "crates/app/Cargo.toml"
                   (PermissionError "crates/app/Cargo.toml")) ].
Proof.
  assert (loads (lib := demo_toml) "crates/app/Cargo.toml" readonly_world
            (File true false legacy_text) legacy_doc) as Hlo
    by (repeat split; vm_compute; reflexivity).
  assert (has_legacy legacy_doc "dependencies"
          || has_legacy legacy_doc "dev-dependencies" = true) as Hmod
    by (vm_compute; reflexivity).
  assert (rewrite_tables legacy_doc = (Return true, rewritten_doc)) as Hre
    by (vm_compute; reflexivity).
  destruct (updating_line_iff_tables_modified (lib := demo_toml)
              "crates/app/Cargo.toml" readonly_world)
    as (_ & Hiff & _ & _ & _ & _ & _ & Hfails).
  split; [by split|]. split.
  - apply (Hiff _ _ Hlo); [vm_compute; reflexivity.. | exact Hmod].
  - apply (Hfails _ _ _ _ Hlo Hre); [reflexivity | | reflexivity].
    left. split; reflexivity.
Defined.



Lemma process_file_rewrites_two_tables_only_witness :
  EvOpen "crates/app/Cargo.toml" "w"
    ∈ new_events target_world
        (process_file (lib := demo_toml) "crates/app/Cargo.toml" target_world).2
  ∧ ∃ f data data',
      disk target_world !! "crates/app/Cargo.toml" = Some f
      ∧ toml_load (Toml := demo_toml) (content f) = Return data
      ∧ rewrite_tables data = (Return true, data')
      ∧ (∀ k, k ≠ "dependencies" → k ≠ "dev-dependencies" →
           data' !! k = data !! k)
      ∧ (∀ text', writable f = true →
           toml_dumps (Toml := demo_toml) data' = Return text' →
           disk (process_file (lib := demo_toml) "crates/app/Cargo.toml" target_world).2
             !! "crates/app/Cargo.toml" = Some (File true true text')).
Proof.
  assert (EvOpen "crates/app/Cargo.toml" "w"
    ∈ new_events target_world
        (process_file (lib := demo_toml) "crates/app/Cargo.toml" target_world).2)
    as H by (apply (bool_decide_unpack _); vm_compute; exact I).
  split; [exact H|].
  exact (process_file_rewrites_two_tables_only (lib := demo_toml) _ _ H).
Defined.

(** The table of the target still names [paws_fs] in what is written. *)
Example target_table_untouched :
  ∃ data', rewrite_tables target_doc = (Return true, data')
         ∧ data' !! "target" = Some target_table
         ∧ has_legacy data' "dependencies" = false.
Proof. eexists. split; [vm_compute; reflexivity|]. split; vm_compute; reflexivity. Qed.

(** * Further properties *)

(** ** [update_deps] on tables: keys, size, return value *)

Lemma legacy_key_present (d : gmap string pyval) :
  (∃ k, k ∈ MERGED_CRATES ∧ is_Some (d !! k)) → nonempty (legacy_keys d) = true.
Proof. intros [k Hk]. apply nonempty_true. exists k. by apply legacy_keys_spec. Qed.

(** X1. On a table with a legacy key, the keys [update_deps] leaves are
    those it found, less the legacy names, and ["paws_common"]. *)
Theorem update_deps_key_set (d : gmap string pyval) :
  (∃ k, k ∈ MERGED_CRATES ∧ is_Some (d !! k)) →
  ∃ d', update_deps (PDict d) = (Return true, PDict d')
      ∧ dom d' = (dom d ∖ list_to_set MERGED_CRATES) ∪ {["paws_common"]}.
Proof.
  intros H. rewrite update_deps_dict, (legacy_key_present d H).
  eexists. split; [reflexivity|].
  apply set_eq. intros k.
  rewrite elem_of_dom, lookup_rewritten, elem_of_union, elem_of_difference,
    elem_of_list_to_set, elem_of_singleton, elem_of_dom.
  destruct (decide (k = "paws_common")) as [->|Hne].
  - split; [by right | by eauto].
  - destruct (decide (k ∈ MERGED_CRATES)) as [Hk|Hk].
    + split; [by intros [? ?] | by intros [[_ ?]|?]].
    + split; [by left | by intros [[? _]|?]].
Qed.

Lemma update_deps_key_set_witness :
  (∃ k, k ∈ MERGED_CRATES
      ∧ is_Some (({[ "paws_fs" := PStr "1.0"; "serde" := PStr "1.0" ]}
                    : gmap string pyval) !! k))
  ∧ ∃ d', update_deps (PDict {[ "paws_fs" := PStr "1.0"; "serde" := PStr "1.0" ]})
          = (Return true, PDict d')
        ∧ dom d'
          = (dom ({[ "paws_fs" := PStr "1.0"; "serde" := PStr "1.0" ]}
                    : gmap string pyval)
               ∖ list_to_set MERGED_CRATES) ∪ {["paws_common"]}.
Proof.
  assert (∃ k, k ∈ MERGED_CRATES
      ∧ is_Some (({[ "paws_fs" := PStr "1.0"; "serde" := PStr "1.0" ]}
                    : gmap string pyval) !! k)) as H.
  { exists "paws_fs". split.
    - apply (bool_decide_unpack _). vm_compute. exact I.
    - exists (PStr "1.0"). vm_compute. reflexivity. }
  split; [exact H | exact (update_deps_key_set _ H)].
Defined.

(** X2. What [update_deps] returns tells whether it changed the object
    it was given: [True] when the object it leaves differs from the one it
    found, [False] when it is the same; so for a value that is no table
    too. *)
Theorem update_deps_returns_whether_changed (v v' : pyval) (b : bool) :
  update_deps v = (Return b, v') → (b = true ↔ v' ≠ v).
Proof.
  intros H. destruct b.
  - split; [intros _|done].
    apply update_deps_true in H as (d & -> & [k Hk]%nonempty_true & ->).
    intros [= Heq]. pose proof (lookup_rewritten d k) as Hl.
    rewrite Heq in Hl. apply legacy_keys_spec in Hk as [Hk [x Hx]].
    rewrite Hx in Hl.
    rewrite decide_False in Hl by (intros ->; by apply paws_common_not_merged).
    by rewrite decide_True in Hl.
  - split; [discriminate|]. intros Hne. exfalso. apply Hne.
    destruct (is_dict v) eqn:Hv.
    + destruct v; try discriminate. rewrite update_deps_dict in H.
      destruct (nonempty (legacy_keys d)); [discriminate|]. by injection H as <-.
    + destruct (update_deps_not_dict v Hv) as [H'|[e H']];
        rewrite H' in H; [by injection H as <- | discriminate].
Qed.

Lemma update_deps_returns_whether_changed_witness :
  update_deps legacy_table
    = (Return true, PDict {[ "serde" := PStr "1.0"; "paws_common" := replacement ]})
  ∧ (true = true
     ↔ PDict {[ "serde" := PStr "1.0"; "paws_common" := replacement ]} ≠ legacy_table).
Proof.
  assert (update_deps legacy_table
    = (Return true, PDict {[ "serde" := PStr "1.0"; "paws_common" := replacement ]}))
    as H by (vm_compute; reflexivity).
  split; [exact H | exact (update_deps_returns_whether_changed _ _ _ H)].
Defined.

Lemma size_remove_all (l : list string) :
  ∀ d : gmap string pyval, NoDup l → (∀ k, k ∈ l → is_Some (d !! k)) →
    size (remove_all l d) + length l = size d.
Proof.
  induction l as [|k l IH]; intros d Hnd Hin; [simpl; lia|].
  change (remove_all (k :: l) d) with (remove_all l (delete k d)).
  inversion_clear Hnd as [|?? Hk Hl].
  destruct (Hin k) as [x Hx]; [left|].
  assert (size d = S (size (delete k d))) as ->.
  { rewrite <- (insert_delete_id d k x Hx) at 1.
    apply map_size_insert_None, lookup_delete_eq. }
  simpl. rewrite <- (IH (delete k d)); [lia | assumption |].
  intros k' Hk'. rewrite lookup_delete_ne; [apply Hin; by right|].
  intros ->. contradiction.
Qed.

(** X3. A rewrite never makes a table larger: every legacy entry goes,
    and one entry comes unless ["paws_common"] was there. *)
Theorem update_deps_size (d : gmap string pyval) :
  (∃ k, k ∈ MERGED_CRATES ∧ is_Some (d !! k)) →
  ∃ d', update_deps (PDict d) = (Return true, PDict d')
      ∧ size d' + length (legacy_keys d)
        = size d + (if has_key d "paws_common" then 0 else 1)
      ∧ (size d' ≤ size d)%nat.
Proof.
  intros H. pose proof (legacy_key_present d H) as Hne.
  rewrite update_deps_dict, Hne. eexists. split; [reflexivity|].
  assert (size (remove_all (legacy_keys d) d) + length (legacy_keys d) = size d)
    as Hsize.
  { apply size_remove_all.
    - apply NoDup_selected, NoDup_MERGED_CRATES.
    - by intros k [_ ?]%legacy_keys_spec. }
  assert (remove_all (legacy_keys d) d !! "paws_common" = d !! "paws_common")
    as Hpc.
  { rewrite lookup_remove_all, decide_False; [reflexivity|].
    intros [? _]%legacy_keys_spec. by apply paws_common_not_merged. }
  assert (1 ≤ length (legacy_keys d))%nat as Hlen
    by (destruct (legacy_keys d); [discriminate | simpl; lia]).
  unfold has_key. destruct (d !! "paws_common") as [x|] eqn:E.
  - rewrite bool_decide_eq_true_2 by eauto.
    rewrite map_size_insert_Some by (rewrite Hpc; eauto). lia.
  - rewrite bool_decide_eq_false_2 by (by intros [? ?]).
    rewrite map_size_insert_None by (by rewrite Hpc). lia.
Qed.

Lemma update_deps_size_witness :
  (∃ k, k ∈ MERGED_CRATES
      ∧ is_Some (({[ "paws_fs" := PStr "1.0"; "paws_snaps" := PStr "2.0";
                     "paws_common" := PStr "0.1" ]} : gmap string pyval) !! k))
  ∧ ∃ d', update_deps (PDict {[ "paws_fs" := PStr "1.0"; "paws_snaps" := PStr "2.0";
                                 "paws_common" := PStr "0.1" ]})
          = (Return true, PDict d')
        ∧ size d' + length (legacy_keys {[ "paws_fs" := PStr "1.0";
                                            "paws_snaps" := PStr "2.0";
                                            "paws_common" := PStr "0.1" ]})
          = size ({[ "paws_fs" := PStr "1.0"; "paws_snaps" := PStr "2.0";
                     "paws_common" := PStr "0.1" ]} : gmap string pyval)
            + (if has_key {[ "paws_fs" := PStr "1.0"; "paws_snaps" := PStr "2.0";
                             "paws_common" := PStr "0.1" ]} "paws_common"
               then 0 else 1)
        ∧ (size d' ≤ size ({[ "paws_fs" := PStr "1.0"; "paws_snaps" := PStr "2.0";
                              "paws_common" := PStr "0.1" ]} : gmap string pyval))%nat.
Proof.
  assert (∃ k, k ∈ MERGED_CRATES
      ∧ is_Some (({[ "paws_fs" := PStr "1.0"; "paws_snaps" := PStr "2.0";
                     "paws_common" := PStr "0.1" ]} : gmap string pyval) !! k)) as H.
  { exists "paws_fs". split.
    - apply (bool_decide_unpack _). vm_compute. exact I.
    - exists (PStr "1.0"). vm_compute. reflexivity. }
  split; [exact H | exact (update_deps_size _ H)].
Defined.

(** ** [update_deps] on values that are no table *)

Lemma prefix_spec (sub s : string) :
  String.prefix sub s = true ↔ ∃ post, s = sub ++ post.
Proof.
  revert s. induction sub as [|c sub IH]; intros s.
  - split; [intros _; by exists s | intros _; by destruct s].
  - destruct s as [|c' s]; simpl.
    + split; [discriminate | by intros [post [=]]].
    + destruct (Ascii.ascii_dec c c') as [->|Hne].
      * rewrite IH. split; intros [post H]; exists post; [by rewrite H | by injection H].
      * split; [discriminate | intros [post [= ? _]]; congruence].
Qed.

(** [is_substring sub s] is [sub in s] of Python: [sub] occurs in [s]. *)
Lemma is_substring_spec (sub s : string) :
  is_substring sub s = true ↔ ∃ pre post, s = pre ++ sub ++ post.
Proof.
  induction s as [|c s IH].
  - change (is_substring sub "") with (String.prefix sub "" || false).
    rewrite orb_false_r, prefix_spec. split.
    + intros [post H]. by exists "", post.
    + intros (pre & post & H). exists post.
      destruct pre; [exact H | discriminate].
  - change (is_substring sub (String c s))
      with (String.prefix sub (String c s) || is_substring sub s).
    rewrite orb_true_iff, prefix_spec, IH. split.
    + intros [[post H]|(pre & post & H)].
      * by exists "", post.
      * exists (String c pre), post. simpl. by rewrite H.
    + intros ([|c' pre] & post & H).
      * left. by exists post.
      * right. injection H as -> H. by exists pre, post.
Qed.

Lemma existsb_eq_str (crate : string) (l : list pyval) :
  existsb (eq_str crate) l = true ↔ PStr crate ∈ l.
Proof.
  rewrite existsb_exists, list_elem_of_In. split.
  - intros (v & Hin & Heq). destruct v; try discriminate.
    apply String.eqb_eq in Heq. by subst.
  - intros Hin. exists (PStr crate). split; [exact Hin | apply String.eqb_refl].
Qed.

Lemma selected_nonempty (test : string → bool) (l : list string) :
  nonempty (selected test l) = true ↔ ∃ k, k ∈ l ∧ test k = true.
Proof.
  rewrite nonempty_true. split; intros [k Hk]; exists k; by apply selected_spec.
Qed.

(** The loops on a string or a list: nothing found, [False]; something
    found, the first [del] raises [TypeError]. *)
Lemma update_deps_sequence (v : pyval) (test : string → bool) :
  is_dict v = false → truthy v = true →
  (∀ k, py_contains k v = (Return (test k), v)) →
  (nonempty (selected test MERGED_CRATES) = false →
   update_deps v = (Return false, v))
  ∧ (nonempty (selected test MERGED_CRATES) = true →
     ∃ e, exn_class e = "TypeError" ∧ update_deps v = (Raise e, v)).
Proof.
  intros Hv Ht Htest. unfold update_deps. rewrite bind_unfold. cbn [get].
  rewrite Ht. cbn [negb].
  rewrite bind_unfold, (collect_loop _ _ Htest). cbn [app orb].
  destruct (selected test MERGED_CRATES) as [|k l]; split; try discriminate.
  - reflexivity.
  - intros _. destruct v; try discriminate;
      eexists; (split; [|reflexivity]); reflexivity.
Qed.

(** X4. On a value that is neither a table, a list nor a string, a
    number say, [update_deps] returns [False] when the value is false in
    the sense of Python, and otherwise raises [TypeError] from the first
    membership test; the value is as it was. *)
Theorem update_deps_scalar (v : pyval) :
  is_scalar v = true →
  (truthy v = false → update_deps v = (Return false, v))
  ∧ (truthy v = true →
     ∃ e, exn_class e = "TypeError" ∧ update_deps v = (Raise e, v)).
Proof.
  intros Hv. unfold update_deps. rewrite bind_unfold. cbn [get].
  split; intros ->; [reflexivity|]. cbn [negb].
  destruct v; try discriminate; eexists; (split; [|reflexivity]); reflexivity.
Qed.

Lemma update_deps_scalar_witness :
  (is_scalar (PInt 5) = true ∧ truthy (PInt 5) = true)
  ∧ ∃ e, exn_class e = "TypeError" ∧ update_deps (PInt 5) = (Raise e, PInt 5).
Proof.
  assert (is_scalar (PInt 5) = true) as H1 by reflexivity.
  assert (truthy (PInt 5) = true) as H2 by reflexivity.
  split; [by split | exact (proj2 (update_deps_scalar _ H1) H2)].
Defined.

(** X5. On a string the membership test of the first loop looks for a
    substring: [update_deps] returns [False] when no legacy name occurs
    in the string, and raises [TypeError], at the first [del], when one
    does; the string is as it was. *)
Theorem update_deps_string (s : string) :
  ((∀ crate, crate ∈ MERGED_CRATES → ¬ ∃ pre post, s = pre ++ crate ++ post) →
   update_deps (PStr s) = (Return false, PStr s))
  ∧ ((∃ crate pre post, crate ∈ MERGED_CRATES ∧ s = pre ++ crate ++ post) →
     ∃ e, exn_class e = "TypeError" ∧ update_deps (PStr s) = (Raise e, PStr s)).
Proof.
  destruct (truthy (PStr s)) eqn:Ht.
  - destruct (update_deps_sequence (PStr s) (λ crate, is_substring crate s)
                eq_refl Ht (λ k, eq_refl)) as [Hnone Hsome].
    split.
    + intros H. apply Hnone. apply not_true_is_false.
      intros (k & Hk & Hsub)%selected_nonempty.
      apply (H k Hk). by apply is_substring_spec.
    + intros (crate & pre & post & Hk & Hs). apply Hsome, selected_nonempty.
      exists crate. split; [exact Hk|]. apply is_substring_spec. eauto.
  - assert (s = "") as ->.
    { simpl in Ht. apply negb_false_iff, String.eqb_eq in Ht. exact Ht. }
    split; [reflexivity|].
    intros (crate & pre & post & Hk & Hs). exfalso.
    destruct pre; [|discriminate]. destruct crate; [|discriminate].
    revert Hk. apply (bool_decide_unpack _). vm_compute. exact I.
Qed.

Lemma update_deps_string_witness :
  (∃ crate pre post, crate ∈ MERGED_CRATES ∧ "my_paws_fs_fork" = pre ++ crate ++ post)
  ∧ ∃ e, exn_class e = "TypeError"
       ∧ update_deps (PStr "my_paws_fs_fork") = (Raise e, PStr "my_paws_fs_fork").
Proof.
  assert (∃ crate pre post,
            crate ∈ MERGED_CRATES ∧ "my_paws_fs_fork" = pre ++ crate ++ post) as H.
  { exists "paws_fs", "my_", "_fork". split; [|reflexivity].
    apply (bool_decide_unpack _). vm_compute. exact I. }
  split; [exact H | exact (proj2 (update_deps_string _) H)].
Defined.

(** X6. On a list the membership test compares the elements with the
    name: [update_deps] returns [False] when no legacy name is an element
    of the list, and raises [TypeError], at the first [del], when one is;
    the list is as it was. *)
Theorem update_deps_list (l : list pyval) :
  ((∀ crate, crate ∈ MERGED_CRATES → PStr crate ∉ l) →
   update_deps (PList l) = (Return false, PList l))
  ∧ ((∃ crate, crate ∈ MERGED_CRATES ∧ PStr crate ∈ l) →
     ∃ e, exn_class e = "TypeError" ∧ update_deps (PList l) = (Raise e, PList l)).
Proof.
  destruct l as [|x l].
  - split; [reflexivity|]. intros (crate & _ & Hin). by apply elem_of_nil in Hin.
  - destruct (update_deps_sequence (PList (x :: l))
                (λ crate, existsb (eq_str crate) (x :: l))
                eq_refl eq_refl (λ k, eq_refl)) as [Hnone Hsome].
    split.
    + intros H. apply Hnone. apply not_true_is_false.
      intros (k & Hk & Hex)%selected_nonempty.
      apply (H k Hk). by apply existsb_eq_str.
    + intros (crate & Hk & Hin). apply Hsome, selected_nonempty.
      exists crate. split; [exact Hk | by apply existsb_eq_str].
Qed.

Lemma update_deps_list_witness :
  (∃ crate, crate ∈ MERGED_CRATES ∧ PStr crate ∈ [PStr "serde"; PStr "paws_fs"])
  ∧ ∃ e, exn_class e = "TypeError"
       ∧ update_deps (PList [PStr "serde"; PStr "paws_fs"])
         = (Raise e, PList [PStr "serde"; PStr "paws_fs"]).
Proof.
  assert (∃ crate, crate ∈ MERGED_CRATES
                 ∧ PStr crate ∈ [PStr "serde"; PStr "paws_fs"]) as H.
  { exists "paws_fs". split.
    - apply (bool_decide_unpack _). vm_compute. exact I.
    - right. left. }
  split; [exact H | exact (proj2 (update_deps_list _) H)].
Defined.

(** ** The two tables, once more *)

(** A second call of [update_deps] on what a call that returned left
    returns [False] and changes nothing, whatever the object is. *)
Lemma update_deps_again (v v' : pyval) (b : bool) :
  update_deps v = (Return b, v') → update_deps v' = (Return false, v').
Proof.
  intros H. destruct (is_dict v) eqn:Hv.
  - destruct v; try discriminate. rewrite update_deps_dict in H.
    destruct (nonempty (legacy_keys d)) eqn:E; injection H as <- <-.
    + rewrite update_deps_dict, legacy_keys_none; [reflexivity|].
      intros k Hk. rewrite lookup_rewritten.
      rewrite decide_False by (intros ->; by apply paws_common_not_merged).
      by rewrite decide_True.
    + by rewrite update_deps_dict, E.
  - destruct (update_deps_not_dict v Hv) as [H'|[e H']]; rewrite H' in H;
      [|discriminate].
    by injection H as <- <-.
Qed.

Lemma check_table_settles key modified data b data' :
  check_table key modified data = (Return b, data') → settled data' key.
Proof.
  rewrite check_table_unfold. unfold settled.
  destruct (data !! key) as [v|] eqn:E.
  - destruct (update_deps v) as [[c|e] v'] eqn:Hu; [|discriminate].
    intros [= <- <-]. rewrite lookup_insert_eq. by eapply update_deps_again.
  - intros [= <- <-]. by rewrite E.
Qed.

Lemma check_table_settled key modified data :
  settled data key → check_table key modified data = (Return modified, data).
Proof.
  unfold settled. rewrite check_table_unfold.
  destruct (data !! key) as [v|] eqn:E; [|reflexivity].
  intros ->. by rewrite insert_id.
Qed.

Lemma settled_no_legacy data key : settled data key → has_legacy data key = false.
Proof.
  unfold settled, has_legacy. destruct (data !! key) as [[]|]; try reflexivity.
  rewrite update_deps_dict. by destruct (nonempty (legacy_keys d)).
Qed.

Lemma rewrite_tables_settles data b data' :
  rewrite_tables data = (Return b, data') →
  settled data' "dependencies" ∧ settled data' "dev-dependencies".
Proof.
  rewrite rewrite_tables_unfold.
  destruct (check_table "dependencies" false data) as [[m|e] data1] eqn:E1;
    [|discriminate].
  intros E2. split; [|by eapply check_table_settles].
  apply check_table_settles in E1. unfold settled in *.
  by rewrite (check_table_frame _ _ _ _ _ "dependencies" E2).
Qed.

Lemma rewrite_tables_settled data :
  settled data "dependencies" → settled data "dev-dependencies" →
  rewrite_tables data = (Return false, data).
Proof.
  intros H1 H2. rewrite rewrite_tables_unfold, (check_table_settled _ _ _ H1).
  by apply check_table_settled.
Qed.

(** What a call of [check_table] that returns gives. *)
Lemma check_table_result key modified data b data' :
  check_table key modified data = (Return b, data') →
  b = has_legacy data key || modified.
Proof.
  rewrite check_table_unfold. unfold has_legacy.
  destruct (data !! key) as [v|]; [|by intros [= <- _]].
  destruct (update_deps v) as [[c|e] v'] eqn:U; [|discriminate].
  intros [= <- _]. f_equal. destruct (is_dict v) eqn:Hv.
  - destruct v; try discriminate. rewrite update_deps_dict in U.
    destruct (nonempty (legacy_keys d)); by injection U as <-.
  - destruct (update_deps_not_dict v Hv) as [H'|[e H']]; rewrite H' in U;
      [|discriminate].
    injection U as <- _. by destruct v.
Qed.

(** X7. When the two calls of [update_deps] in [process_file] return,
    neither [dependencies] nor [dev-dependencies] has a legacy key left
    (the second is rewritten also when the first was), and [modified]
    tells whether one of them had one. *)
Theorem rewrite_tables_clears_both_tables (data data' : gmap string pyval) (b : bool) :
  rewrite_tables data = (Return b, data') →
  has_legacy data' "dependencies" = false
  ∧ has_legacy data' "dev-dependencies" = false
  ∧ b = has_legacy data "dependencies" || has_legacy data "dev-dependencies".
Proof.
  intros H. destruct (rewrite_tables_settles _ _ _ H) as [H1 H2].
  split; [by apply settled_no_legacy|]. split; [by apply settled_no_legacy|].
  revert H. rewrite rewrite_tables_unfold.
  destruct (check_table "dependencies" false data) as [[m|e] data1] eqn:E1;
    [|discriminate].
  intros E2. apply check_table_result in E2 as ->.
  destruct (has_legacy_frame _ _ _ _ _ "dev-dependencies" E1) as [-> _];
    [discriminate|].
  apply check_table_result in E1 as ->.
  by rewrite orb_false_r, orb_comm.
Qed.

Lemma rewrite_tables_clears_both_tables_witness :
  rewrite_tables {[ "dependencies" := legacy_table;
                    "dev-dependencies" := PDict {[ "paws_test_kit" := PStr "0.3" ]} ]}
  = (Return true,
     {[ "dependencies" := PDict {[ "serde" := PStr "1.0"; "paws_common" := replacement ]};
        "dev-dependencies" := PDict {[ "paws_common" := replacement ]} ]})
  ∧ has_legacy {[ "dependencies" := PDict {[ "serde" := PStr "1.0";
                                               "paws_common" := replacement ]};
                  "dev-dependencies" := PDict {[ "paws_common" := replacement ]} ]}
      "dependencies" = false
  ∧ has_legacy {[ "dependencies" := PDict {[ "serde" := PStr "1.0";
                                               "paws_common" := replacement ]};
                  "dev-dependencies" := PDict {[ "paws_common" := replacement ]} ]}
      "dev-dependencies" = false
  ∧ true = has_legacy {[ "dependencies" := legacy_table;
                         "dev-dependencies" := PDict {[ "paws_test_kit" := PStr "0.3" ]} ]}
             "dependencies"
           || has_legacy {[ "dependencies" := legacy_table;
                            "dev-dependencies" := PDict {[ "paws_test_kit" := PStr "0.3" ]} ]}
                "dev-dependencies".
Proof.
  assert (rewrite_tables {[ "dependencies" := legacy_table;
                    "dev-dependencies" := PDict {[ "paws_test_kit" := PStr "0.3" ]} ]}
  = (Return true,
     {[ "dependencies" := PDict {[ "serde" := PStr "1.0"; "paws_common" := replacement ]};
        "dev-dependencies" := PDict {[ "paws_common" := replacement ]} ]})) as H
    by (vm_compute; reflexivity).
  split; [exact H | exact (rewrite_tables_clears_both_tables _ _ _ H)].
Defined.

(** X8. Lines 35 to 43 are idempotent on a document: run on the
    document they left, they return [False] and leave it as it is. *)
Theorem rewrite_tables_idempotent (data data' : gmap string pyval) (b : bool) :
  rewrite_tables data = (Return b, data') →
  rewrite_tables data' = (Return false, data').
Proof.
  intros [H1 H2]%rewrite_tables_settles. by apply rewrite_tables_settled.
Qed.

Lemma rewrite_tables_idempotent_witness :
  rewrite_tables legacy_doc = (Return true, rewritten_doc)
  ∧ rewrite_tables rewritten_doc = (Return false, rewritten_doc).
Proof.
  assert (rewrite_tables legacy_doc = (Return true, rewritten_doc)) as H
    by (vm_compute; reflexivity).
  split; [exact H | exact (rewrite_tables_idempotent _ _ _ H)].
Defined.

(** ** [process_file], case by case *)

Lemma scalar_raises (v : pyval) :
  is_scalar v = true → truthy v = true → ∃ e, update_deps v = (Raise e, v).
Proof.
  intros Hs Ht. unfold update_deps. rewrite bind_unfold. cbn [get].
  rewrite Ht. destruct v; try discriminate; eexists; reflexivity.
Qed.

Lemma rewrite_tables_raises (data : gmap string pyval) (key : string) (v : pyval) :
  key = "dependencies" ∨ key = "dev-dependencies" →
  data !! key = Some v → is_scalar v = true → truthy v = true →
  ∃ e data', rewrite_tables data = (Raise e, data').
Proof.
  intros Hkey Hv Hs Ht. destruct (scalar_raises v Hs Ht) as [e He].
  rewrite rewrite_tables_unfold. destruct Hkey as [->| ->].
  - rewrite check_table_unfold, Hv, He. eauto.
  - destruct (check_table "dependencies" false data) as [[m|e1] data1] eqn:E1;
      [|eauto].
    rewrite check_table_unfold,
      (check_table_frame _ _ _ _ _ "dev-dependencies" E1), Hv, He by discriminate.
    eauto.
Qed.

Section MoreFileProps.

Context {lib : Toml}.

(** X9. With an output that takes the lines, [process_file] is
    idempotent on a file it rewrote, when the library reads back what it
    wrote ([toml.load] on the text of [toml.dumps] gives the document
    again): the file holds the text of the rewritten document, and a
    second call only opens it for reading; nothing is printed and nothing
    written. *)
Theorem process_file_twice (path : string) (w : world) (f : file)
    (data data' : gmap string pyval) (text' : string) :
  console_ok w →
  disk w !! path = Some f → readable f = true → writable f = true →
  toml_load (content f) = Return data →
  rewrite_tables data = (Return true, data') →
  toml_dumps data' = Return text' →
  toml_load text' = Return data' →
  disk (process_file path w).2 !! path = Some (File true true text')
  ∧ (process_file path (process_file path w).2).2
    = add_events (process_file path w).2 [EvOpen path "r"].
Proof.
  intros Hok Hf Hr Hw Hl Hrw Hd Hround.
  rewrite (process_file_is path w _ _
             (Written path w f data data' text' (conj Hf (conj Hr Hl)) Hrw
                (Hok _) Hw Hd)).
  rewrite finish_return. cbn [snd disk]. split; [apply lookup_insert_eq|].
  match goal with
  | |- (process_file path ?w1).2 = _ =>
      rewrite (process_file_is path w1 (Return ()) (add_events w1 [EvOpen path "r"]))
  end; [reflexivity|].
  eapply (Unmodified _ _ (File true true text') data' data').
  - repeat split; [apply lookup_insert_eq | exact Hround].
  - apply rewrite_tables_settles in Hrw as [H1 H2].
    by apply rewrite_tables_settled.
Qed.

(** X10. A manifest in which [dependencies] or [dev-dependencies] is a
    number, a date or [true] is never written: [update_deps] raises on
    it, and with an output that takes the lines the file is reported with
    one error line and left as it is, also when the other table has legacy
    keys. *)
Theorem scalar_table_blocks_write (path : string) (w : world) (f : file)
    (data : gmap string pyval) (key : string) (v : pyval) :
  console_ok w →
  disk w !! path = Some f → readable f = true →
  toml_load (content f) = Return data →
  key = "dependencies" ∨ key = "dev-dependencies" →
  data !! key = Some v → is_scalar v = true → truthy v = true →
  ∃ e, (process_file path w).2
       = add_events w [EvOpen path "r"; EvPrint (error_line path e)].
Proof.
  intros Hok Hf Hr Hl Hkey Hv Hs Ht.
  destruct (rewrite_tables_raises data key v Hkey Hv Hs Ht) as (e & data' & Hrw).
  exists e.
  rewrite (process_file_is path w _ _
             (RewriteFailed path w f data e data' (conj Hf (conj Hr Hl)) Hrw)).
  rewrite finish_reported by apply Hok. cbn [snd]. apply add_events_add.
Qed.

(** X11. When [toml.dumps] raises on the rewritten document, the
    manifest is left empty: it was truncated when it was opened for
    writing.  With an output that takes the lines, the line [Updating] and
    then the error line are printed. *)
Theorem failed_dump_empties_file (path : string) (w : world) (f : file)
    (data data' : gmap string pyval) (e : exn) :
  console_ok w →
  disk w !! path = Some f → readable f = true → writable f = true →
  toml_load (content f) = Return data →
  rewrite_tables data = (Return true, data') →
  toml_dumps data' = Raise e →
  disk (process_file path w).2 = <[path := File true true ""]> (disk w)
  ∧ new_events w (process_file path w).2
    = [ EvOpen path "r"; EvPrint ("Updating " ++ path); EvOpen path "w";
        EvPrint (error_line path e) ].
Proof.
  intros Hok Hf Hr Hw Hl Hrw Hd.
  rewrite (process_file_is path w _ _
             (DumpFailed path w f data data' e (conj Hf (conj Hr Hl)) Hrw
                (Hok _) Hw Hd)).
  rewrite finish_reported by apply Hok. cbn [snd]. norm_world.
  split; [reflexivity | apply new_events_app].
Qed.

(** X12. When a manifest with legacy dependencies may be read and not
    written, the disk is left as it is: opening for writing is refused
    before anything is truncated.  With an output that takes the lines,
    the line [Updating] and then the line of the [PermissionError] are
    printed. *)
Theorem denied_write_keeps_file (path : string) (w : world) (f : file)
    (data data' : gmap string pyval) :
  console_ok w →
  disk w !! path = Some f → readable f = true → writable f = false →
  toml_load (content f) = Return data →
  rewrite_tables data = (Return true, data') →
  disk (process_file path w).2 = disk w
  ∧ new_events w (process_file path w).2
    = [ EvOpen path "r"; EvPrint ("Updating " ++ path); EvOpen path "w";
        EvPrint (error_line path (PermissionError path)) ].
Proof.
  intros Hok Hf Hr Hw Hl Hrw.
  rewrite (process_file_is path w _ _
             (WriteDenied path w f data data' (conj Hf (conj Hr Hl)) Hrw
                (Hok _) Hw)).
  rewrite finish_reported by apply Hok. cbn [snd]. norm_world.
  split; [reflexivity | apply new_events_app].
Qed.

End MoreFileProps.

Lemma process_file_twice_witness :
  console_ok demo_world
  ∧ disk (process_file (lib := roundtrip_toml) "crates/app/Cargo.toml" demo_world).2
      !! "crates/app/Cargo.toml" = Some (File true true rewritten_text)
  ∧ (process_file (lib := roundtrip_toml) "crates/app/Cargo.toml"
       (process_file (lib := roundtrip_toml) "crates/app/Cargo.toml" demo_world).2).2
    = add_events
        (process_file (lib := roundtrip_toml) "crates/app/Cargo.toml" demo_world).2
        [EvOpen "crates/app/Cargo.toml" "r"].
Proof.
  assert (console_ok demo_world) as Hok by (intros line; reflexivity).
  split; [exact Hok|].
  apply (process_file_twice (lib := roundtrip_toml) "crates/app/Cargo.toml"
           demo_world (File true true legacy_text) legacy_doc rewritten_doc
           rewritten_text Hok); vm_compute; reflexivity.
Defined.

Lemma scalar_table_blocks_write_witness :
  console_ok scalar_world
  ∧ ∃ e, (process_file (lib := scalar_toml) "crates/app/Cargo.toml" scalar_world).2
         = add_events scalar_world
             [ EvOpen "crates/app/Cargo.toml" "r";
               EvPrint (error_line "crates/app/Cargo.toml" e) ].
Proof.
  assert (console_ok scalar_world) as Hok by (intros line; reflexivity).
  split; [exact Hok|].
  apply (scalar_table_blocks_write (lib := scalar_toml) "crates/app/Cargo.toml"
           scalar_world (File true true scalar_text) scalar_doc
           "dev-dependencies" (PInt 5) Hok);
    try (vm_compute; reflexivity).
  right. reflexivity.
Defined.

Lemma failed_dump_empties_file_witness :
  console_ok demo_world
  ∧ disk (process_file (lib := failing_dump_toml) "crates/app/Cargo.toml" demo_world).2
    = <["crates/app/Cargo.toml" := File true true ""]> (disk demo_world)
  ∧ new_events demo_world
      (process_file (lib := failing_dump_toml) "crates/app/Cargo.toml" demo_world).2
    = [ EvOpen "crates/app/Cargo.toml" "r";
        EvPrint ("Updating " ++ "crates/app/Cargo.toml");
        EvOpen "crates/app/Cargo.toml" "w";
        EvPrint (error_line "crates/app/Cargo.toml"
                   (Exn "ValueError" "Circular reference detected")) ].
Proof.
  assert (console_ok demo_world) as Hok by (intros line; reflexivity).
  split; [exact Hok|].
  apply (failed_dump_empties_file (lib := failing_dump_toml) "crates/app/Cargo.toml"
           demo_world (File true true legacy_text) legacy_doc rewritten_doc _ Hok);
    vm_compute; reflexivity.
Defined.

Lemma denied_write_keeps_file_witness :
  console_ok readonly_world
  ∧ disk (process_file (lib := demo_toml) "crates/app/Cargo.toml" readonly_world).2
    = disk readonly_world
  ∧ new_events readonly_world
      (process_file (lib := demo_toml) "crates/app/Cargo.toml" readonly_world).2
    = [ EvOpen "crates/app/Cargo.toml" "r";
        EvPrint ("Updating " ++ "crates/app/Cargo.toml");
        EvOpen "crates/app/Cargo.toml" "w";
        EvPrint (error_line "crates/app/Cargo.toml"
                   (PermissionError "crates/app/Cargo.toml")) ].
Proof.
  assert (console_ok readonly_world) as Hok by (intros line; reflexivity).
  split; [exact Hok|].
  apply (denied_write_keeps_file (lib := demo_toml) "crates/app/Cargo.toml"
           readonly_world (File true false legacy_text) legacy_doc rewritten_doc Hok);
    vm_compute; reflexivity.
Defined.

(** ** What [main] touches *)

Lemma manifests_of_spec (entry : string * list string * list string) (path : string) :
  path ∈ manifests_of entry ↔
  "Cargo.toml" ∈ entry.2 ∧ path = path_join entry.1.1 "Cargo.toml".
Proof.
  destruct entry as [[root dirs] files]. unfold manifests_of. cbn [fst snd].
  rewrite list_elem_of_fmap. split.
  - intros (file & -> & Hin). apply list_elem_of_In, filter_In in Hin as [Hin Heq].
    apply String.eqb_eq in Heq as ->. by apply list_elem_of_In in Hin.
  - intros [Hin ->]. exists "Cargo.toml". split; [reflexivity|].
    apply list_elem_of_In, filter_In. split; [by apply list_elem_of_In | reflexivity].
Qed.

(** The manifests are the entries named [Cargo.toml], to the letter, of
    the directories of the walk. *)
Lemma manifest_paths_spec (w : world) (path : string) :
  path ∈ manifest_paths w ↔
  ∃ t entry, crates w = Some t ∧ entry ∈ walk "crates" t
           ∧ "Cargo.toml" ∈ entry.2 ∧ path = path_join entry.1.1 "Cargo.toml".
Proof.
  unfold manifest_paths. destruct (crates w) as [t|].
  - rewrite list_elem_of_In, in_flat_map. split.
    + intros (entry & Hin & Hp). exists t, entry.
      split; [reflexivity|]. split; [by apply list_elem_of_In|].
      by apply manifests_of_spec, list_elem_of_In.
    + intros (t' & entry & [= <-] & Hin & Hp). exists entry.
      split; [by apply list_elem_of_In|].
      by apply list_elem_of_In, manifests_of_spec.
  - split; [by intros ?%elem_of_nil | by intros (? & ? & ? & _)].
Qed.

Lemma dirtree_nested_ind (P : dirtree → Prop) :
  (∀ scan_ok subdirs nondirs,
     Forall (λ entry, P entry.2) subdirs → P (Dir scan_ok subdirs nondirs)) →
  ∀ t, P t.
Proof.
  intros H. fix IH 1. intros [scan_ok subdirs nondirs]. apply H.
  induction subdirs as [|[name sub] subdirs IHs]; constructor.
  - apply IH.
  - exact IHs.
Qed.

Lemma prefix_app (a b : string) : String.prefix a (a ++ b) = true.
Proof. apply prefix_spec. by exists b. Qed.

Lemma prefix_refl (a : string) : String.prefix a a = true.
Proof.
  induction a as [|c a IH]; simpl; [reflexivity|].
  destruct (Ascii.ascii_dec c c); [exact IH | contradiction].
Qed.

Lemma prefix_trans (a b c : string) :
  String.prefix a b = true → String.prefix b c = true → String.prefix a c = true.
Proof.
  revert b c. induction a as [|x a IH]; intros [|y b] [|z c]; simpl;
    try reflexivity; try discriminate.
  destruct (Ascii.ascii_dec x y) as [->|]; [|discriminate].
  destruct (Ascii.ascii_dec y z) as [->|]; [|discriminate].
  apply IH.
Qed.

Lemma prefix_path_join (a b : string) :
  String.prefix "/" b = false → String.prefix a (path_join a b) = true.
Proof.
  intros Hb. unfold path_join. rewrite Hb.
  destruct (String.eqb a "" || ends_with_sep a); apply prefix_app.
Qed.

(** The directories of the walk are the top and directories below it. *)
Lemma walk_roots (t : dirtree) :
  ∀ top entry, well_named t = true → entry ∈ walk top t →
    entry.1.1 = top
    ∨ ∃ name, String.prefix "/" name = false
            ∧ String.prefix (path_join top name) entry.1.1 = true.
Proof.
  induction t as [scan_ok subdirs nondirs IH] using dirtree_nested_ind.
  intros top entry Hwn Hin. simpl in Hin.
  destruct scan_ok; [|by apply elem_of_nil in Hin].
  apply elem_of_cons in Hin as [->|Hin]; [by left|]. right.
  simpl in Hwn. revert Hwn Hin.
  induction IH as [|[name sub] subdirs Hsub _ IHsubs]; intros Hwn Hin.
  - by apply elem_of_nil in Hin.
  - apply andb_prop in Hwn as [[Hname Hwsub]%andb_prop Hrest].
    apply negb_true_iff in Hname.
    apply elem_of_app in Hin as [Hin|Hin]; [|by apply IHsubs].
    exists name. split; [exact Hname|].
    destruct (Hsub _ _ Hwsub Hin) as [->|(name' & Hname' & Hpre)].
    + apply prefix_refl.
    + eapply prefix_trans; [|exact Hpre]. by apply prefix_path_join.
Qed.

Lemma manifest_under_crates (w : world) (path : string) :
  well_named_world w = true → path ∈ manifest_paths w →
  String.prefix "crates/" path = true.
Proof.
  unfold well_named_world.
  intros Hwn (t & entry & Ht & Hin & _ & ->)%manifest_paths_spec.
  rewrite Ht in Hwn.
  destruct (walk_roots t "crates" entry Hwn Hin) as [->|(name & Hname & Hpre)].
  - reflexivity.
  - eapply prefix_trans; [|by apply prefix_path_join].
    eapply prefix_trans; [|exact Hpre].
    unfold path_join. rewrite Hname. apply (prefix_app "crates/" name).
Qed.

Section MainProps.

Context {lib : Toml}.

Lemma process_all_events (paths : list string) :
  ∀ w, ∃ evs, trace (process_all paths w).2 = (trace w ++ evs)%list
            ∧ ∀ ev, ev ∈ evs → ∃ path, path ∈ paths ∧ about path ev.
Proof.
  induction paths as [|q paths IH]; intros w.
  - exists []. split; [by rewrite app_nil_r | by intros ? ?%elem_of_nil].
  - destruct (process_file_trace q w) as (e1 & H1 & Hab1).
    assert (∀ ev, ev ∈ EvOpen q "r" :: e1 → ∃ path, path ∈ q :: paths ∧ about path ev)
      as Hfirst.
    { intros ev [->|Hev]%elem_of_cons; exists q; (split; [left|]).
      - left. by exists "r".
      - by apply Hab1. }
    rewrite process_all_cons.
    destruct (process_file q w) as [[[]|e] w1]; cbn [snd] in H1.
    + destruct (IH w1) as (e2 & H2 & Hin).
      exists ((EvOpen q "r" :: e1) ++ e2)%list. split.
      * by rewrite H2, H1, <- app_assoc.
      * intros ev [Hev|Hev]%elem_of_app; [by apply Hfirst|].
        destruct (Hin ev Hev) as (path & Hp & Hab). exists path.
        split; [by right | exact Hab].
    + exists (EvOpen q "r" :: e1). by split.
Qed.

Lemma main_events (w : world) (ev : event) :
  ev ∈ new_events w (main w).2 → ∃ path, path ∈ manifest_paths w ∧ about path ev.
Proof.
  rewrite main_unfold.
  destruct (process_all_events (manifest_paths w) w) as (evs & Ht & Hev).
  unfold new_events. rewrite Ht, drop_app_length. apply Hev.
Qed.

(** X14. Every file [main] opens, for reading or for writing, is an
    entry named [Cargo.toml], to the letter, of a directory that
    [os.walk] gave. *)
Theorem main_opens_manifests_only (w : world) (path mode : string) :
  EvOpen path mode ∈ new_events w (main w).2 →
  ∃ t root dirs files,
    crates w = Some t ∧ (root, dirs, files) ∈ walk "crates" t
    ∧ "Cargo.toml" ∈ files ∧ path = path_join root "Cargo.toml".
Proof.
  intros (p & Hp & Hab)%main_events.
  assert (p = path) as ->.
  { destruct Hab as [[m [= ->]]|[[=]|[e [=]]]]. reflexivity. }
  apply manifest_paths_spec in Hp as (t & [[root dirs] files] & Ht' & Hw & Hc & ->).
  by exists t, root, dirs, files.
Qed.

(** X15. Every line [main] prints is [Updating <path>] or [Error
    processing <path>: <detail>] for a manifest of the walk; there is no
    other output, and no summary. *)
Theorem main_prints_about_manifests_only (w : world) (line : string) :
  EvPrint line ∈ new_events w (main w).2 →
  ∃ path, path ∈ manifest_paths w
        ∧ (line = "Updating " ++ path ∨ ∃ e, line = error_line path e).
Proof.
  intros (p & Hp & Hab)%main_events. exists p. split; [exact Hp|].
  destruct Hab as [[m [=]]|[[= ->]|[e [= ->]]]]; eauto.
Qed.

(** X16. When no name of a subdirectory starts with a separator, as is so
    of the names [os.scandir] gives, the path of every file [main] opens
    starts with [crates/]. *)
Theorem main_stays_under_crates (w : world) :
  well_named_world w = true →
  ∀ path mode, EvOpen path mode ∈ new_events w (main w).2 →
    String.prefix "crates/" path = true.
Proof.
  intros Hwn path mode (p & Hp & Hab)%main_events.
  assert (p = path) as ->.
  { destruct Hab as [[m [= ->]]|[[=]|[e [=]]]]. reflexivity. }
  by apply (manifest_under_crates w).
Qed.

End MainProps.

Lemma main_opens_manifests_only_witness :
  EvOpen "crates/app/Cargo.toml" "w"
    ∈ new_events demo_world (main (lib := demo_toml) demo_world).2
  ∧ ∃ t root dirs files,
      crates demo_world = Some t ∧ (root, dirs, files) ∈ walk "crates" t
      ∧ "Cargo.toml" ∈ files
      ∧ "crates/app/Cargo.toml" = path_join root "Cargo.toml".
Proof.
  assert (EvOpen "crates/app/Cargo.toml" "w"
    ∈ new_events demo_world (main (lib := demo_toml) demo_world).2) as H
    by (apply (bool_decide_unpack _); vm_compute; exact I).
  split; [exact H | exact (main_opens_manifests_only (lib := demo_toml) _ _ _ H)].
Defined.

Lemma main_prints_about_manifests_only_witness :
  EvPrint "Updating crates/app/Cargo.toml"
    ∈ new_events demo_world (main (lib := demo_toml) demo_world).2
  ∧ ∃ path, path ∈ manifest_paths demo_world
          ∧ ("Updating crates/app/Cargo.toml" = "Updating " ++ path
             ∨ ∃ e, "Updating crates/app/Cargo.toml" = error_line path e).
Proof.
  assert (EvPrint "Updating crates/app/Cargo.toml"
    ∈ new_events demo_world (main (lib := demo_toml) demo_world).2) as H
    by (apply (bool_decide_unpack _); vm_compute; exact I).
  split; [exact H | exact (main_prints_about_manifests_only (lib := demo_toml) _ _ H)].
Defined.

Lemma main_stays_under_crates_witness :
  well_named_world demo_world = true
  ∧ ∀ path mode,
      EvOpen path mode ∈ new_events demo_world (main (lib := demo_toml) demo_world).2 →
      String.prefix "crates/" path = true.
Proof.
  assert (well_named_world demo_world = true) as H by (vm_compute; reflexivity).
  split; [exact H | exact (main_stays_under_crates (lib := demo_toml) _ H)].
Defined.
